(** * PluginBridge: a shallow embedding of [src/plugin_bridge.js]

    The bridge is a JavaScript class with three mutable fields
    ([plugins], [middlewares], [listeners]) and an injected logger.  Its
    methods are modelled as computations in a state-and-exception monad
    over a [World] that holds those fields, the object heap and a trace of
    the calls the bridge makes.

    Modelling conventions.
    - JavaScript values are the type [value]; objects live in a heap and
      are passed by reference ([VRef]), so that sharing is visible.
      [Error] objects are immutable values identified by their message.
    - A JavaScript [Map] is an insertion-ordered association list with
      unique keys ([JsMap]); a [Set] is an insertion-ordered duplicate-free
      list ([JsSet]).
    - The functions supplied by the embedding application (handlers,
      middleware, listeners, the logger) are not part of the repository.
      They are the fields of an environment [Env]; every theorem
      quantifies over it.  Such a function acts on the object heap; it
      does not call back into the bridge that is running it.
    - [Live] lifts that last convention for the listeners: there a
      listener may call [on] and [off] while an event is emitted, the
      listener sets are the entry lists of a JavaScript [Set], with the
      holes [delete] leaves, and [emit] loops over the set as those
      calls leave it.
    - A handler or middleware stands for its settled outcome: [Returned v]
      is a value or a promise fulfilled with [v], [Thrown e] a
      synchronous throw or a promise rejected with [e].  [await e] runs
      [e] to that outcome.  A listener and the logger stand for their
      synchronous outcome: [emit] awaits nothing.  The interleaving of
      the targets of one [broadcast] on the event loop is not modelled:
      targets are run one after the other, in the order of the snapshot.
    - Numbers are integers; property reads have no getters. *)

From Stdlib Require Import ZArith Lia Ascii String.
From stdpp Require Import gmap strings list fin_maps.

Set Default Proof Using "Type".
Open Scope string_scope.
Open Scope list_scope.

(** ** Values *)

Definition fid := nat.
Definition loc := nat.

Inductive value : Type :=
| VUndefined
| VNull
| VBool (b : bool)
| VNum (n : Z)
| VStr (s : string)
| VFun (f : fid)
| VRef (l : loc)
| VError (m : string).

Global Instance value_eq_dec : EqDecision value.
Proof. solve_decision. Defined.

(** What a call settles to. *)
Inductive Result (A : Type) : Type :=
| Returned (a : A)
| Thrown (e : value).
Arguments Returned {A} a.
Arguments Thrown {A} e.

Abbreviation obj := (gmap string value).

(** [typeof v] *)
Definition typeof (v : value) : string :=
  match v with
  | VUndefined => "undefined"
  | VNull => "object"
  | VBool _ => "boolean"
  | VNum _ => "number"
  | VStr _ => "string"
  | VFun _ => "function"
  | VRef _ => "object"
  | VError _ => "object"
  end.

(** ToBoolean, as used by [!name]. *)
Definition truthy (v : value) : bool :=
  match v with
  | VUndefined | VNull => false
  | VBool b => b
  | VNum n => negb (n =? 0)%Z
  | VStr s => negb (String.eqb s EmptyString)
  | VFun _ | VRef _ | VError _ => true
  end.

(** ** Map and Set *)

Module JsMap.
Section ops.
Context {V : Type}.

Definition has (m : list (value * V)) (k : value) : bool :=
  bool_decide (k ∈ m.*1).

Fixpoint get (m : list (value * V)) (k : value) : option V :=
  match m with
  | [] => None
  | (k', v) :: m' => if decide (k' = k) then Some v else get m' k
  end.

(** [m.set(k, v)]: an existing key keeps its place. *)
Fixpoint set (m : list (value * V)) (k : value) (v : V) : list (value * V) :=
  match m with
  | [] => [(k, v)]
  | (k', v') :: m' =>
      if decide (k' = k) then (k, v) :: m' else (k', v') :: set m' k v
  end.

(** [m.delete(k)] returns whether the key was present. *)
Definition delete (m : list (value * V)) (k : value) : bool * list (value * V) :=
  (has m k, filter (fun p => p.1 <> k) m).

Definition keys (m : list (value * V)) : list value := m.*1.
End ops.
End JsMap.

Module JsSet.
Definition add (s : list value) (x : value) : list value :=
  if decide (x ∈ s) then s else s ++ [x].

Definition delete (s : list value) (x : value) : list value :=
  filter (fun y => y <> x) s.
End JsSet.

(** ** The world *)

(** The calls the bridge makes, in order.  An emission is recorded with
    the object its payload refers to at that moment; a listener call is
    recorded when it returns, with its outcome. *)
Inductive entry : Type :=
| CallHandler (f : fid) (message context : value)
| CallMiddleware (f : fid) (message context : value)
| Emit (name payload : value) (content : option obj)
| CallListener (callback payload : value) (outcome : Result value)
| LogError (args : list value).

Record World : Type := mkWorld {
  plugins : list (value * value);
  middlewares : list value;
  listeners : list (value * list value);
  heap : list obj;
  trace : list entry
}.

Definition set_plugins (p : list (value * value)) (w : World) : World :=
  mkWorld p (middlewares w) (listeners w) (heap w) (trace w).
Definition set_middlewares (m : list value) (w : World) : World :=
  mkWorld (plugins w) m (listeners w) (heap w) (trace w).
Definition set_listeners (l : list (value * list value)) (w : World) : World :=
  mkWorld (plugins w) (middlewares w) l (heap w) (trace w).
Definition set_heap (h : list obj) (w : World) : World :=
  mkWorld (plugins w) (middlewares w) (listeners w) h (trace w).
Definition add_event (e : entry) (w : World) : World :=
  mkWorld (plugins w) (middlewares w) (listeners w) (heap w) (trace w ++ [e]).

(** [constructor]: empty maps and an empty middleware array. *)
Definition constructor (h : list obj) : World := mkWorld [] [] [] h [].

(** ** Application functions *)

(** A function of the application, run on the heap. *)
Definition Action : Type := list obj -> Result value * list obj.

(** A middleware runs until it returns or throws ([MwReturn]), or until
    it calls [next] with some arguments ([MwNext]) and goes on from what
    that call settles to. *)
Inductive MwStep : Type :=
| MwReturn (r : Result value) (h : list obj)
| MwNext (args : list value) (h : list obj)
         (k : Result value -> list obj -> MwStep).

Record Env : Type := mkEnv {
  handler_sem : fid -> value -> value -> Action;
  middleware_sem : fid -> value -> value -> list obj -> MwStep;
  listener_sem : fid -> value -> Action;
  logger_error : list value -> Action;
  (** the text a template literal gives a value that is not a string *)
  text_of : value -> string
}.

(** ** The monad *)

Definition M (A : Type) : Type := World -> Result A * World.

Definition ret {A} (a : A) : M A := fun w => (Returned a, w).
Definition throw {A} (e : value) : M A := fun w => (Thrown e, w).
Definition bind {A B} (m : M A) (f : A -> M B) : M B :=
  fun w =>
    match m w with
    | (Returned a, w') => f a w'
    | (Thrown e, w') => (Thrown e, w')
    end.
Definition gets {A} (f : World -> A) : M A := fun w => (Returned (f w), w).
Definition modify (f : World -> World) : M unit := fun w => (Returned tt, f w).
Definition tell (e : entry) : M unit := modify (add_event e).

(** [try { m } catch (e) { h e }] and [m.catch(h)]. *)
Definition try_catch {A} (m : M A) (h : value -> M A) : M A :=
  fun w =>
    match m w with
    | (Returned a, w') => (Returned a, w')
    | (Thrown e, w') => h e w'
    end.

(** Run [m] to its outcome; never throws. *)
Definition settle {A} (m : M A) : M (Result A) :=
  fun w => let (r, w') := m w in (Returned r, w').

Notation "x <- m ;; k" := (bind m (fun x => k))
  (at level 100, m at next level, right associativity).
Notation "m ;;; k" := (bind m (fun _ => k))
  (at level 100, right associativity).

Definition lift_action (a : Action) : M value :=
  fun w => let (r, h) := a (heap w) in (r, set_heap h w).

(** The object a value refers to, if any. *)
Definition deref (h : list obj) (v : value) : option obj :=
  match v with
  | VRef l => h !! l
  | _ => None
  end.

(** An object literal: a fresh object on the heap. *)
Definition alloc (o : obj) : M value :=
  fun w => (Returned (VRef (length (heap w))), set_heap (heap w ++ [o]) w).

(** A parameter with default [{}]: used when the argument is [undefined]. *)
Definition default_param (v : value) : M value :=
  match v with
  | VUndefined => alloc ∅
  | _ => ret v
  end.

Definition dquote : string := String "034"%char EmptyString.

Definition not_a_function : value := VError "not a function".

(** [error.message]: reading a property of [undefined] or [null] throws a
    [TypeError]; an [Error] has its message; any other object has the
    property or not; a primitive has none. *)
Definition get_message (error : value) : M value :=
  match error with
  | VUndefined =>
      throw (VError "Cannot read properties of undefined (reading 'message')")
  | VNull =>
      throw (VError "Cannot read properties of null (reading 'message')")
  | VError m => ret (VStr m)
  | VRef l =>
      gets (fun w =>
        match heap w !! l with
        | Some o => default VUndefined (o !! "message")
        | None => VUndefined
        end)
  | VBool _ | VNum _ | VStr _ | VFun _ => ret VUndefined
  end.

(** [for (const x of l) body(x)] *)
Fixpoint for_each {A} (l : list A) (body : A -> M unit) : M unit :=
  match l with
  | [] => ret tt
  | x :: l' => body x ;;; for_each l' body
  end.

(** [l.reduceRight(f, init)]: from the last element to the first. *)
Definition reduceRight {A B} (f : B -> A -> B) (init : B) (l : list A) : B :=
  fold_left f (rev l) init.

(** [Promise.all] of settled tasks: the values in order, or the first
    rejection. *)
Fixpoint promise_all (rs : list (Result value)) : Result (list value) :=
  match rs with
  | [] => Returned []
  | Thrown e :: _ => Thrown e
  | Returned v :: rs' =>
      match promise_all rs' with
      | Returned vs => Returned (v :: vs)
      | Thrown e => Thrown e
      end
  end.

(** ** The bridge *)

Section PluginBridge.
Context (E : Env).

(** [`${v}`] *)
Definition to_text (v : value) : string :=
  match v with
  | VStr s => s
  | _ => text_of E v
  end.

Definition name_error : value :=
  VError "Plugin name must be a non-empty string.".
Definition handler_error : value :=
  VError "Plugin handler must be a function.".
Definition middleware_error : value :=
  VError "Middleware must be a function.".
Definition duplicate_error (name : value) : value :=
  VError ("Plugin " +:+ dquote +:+ to_text name +:+ dquote +:+ " is already registered.").
Definition unknown_error (name : value) : value :=
  VError ("Plugin " +:+ dquote +:+ to_text name +:+ dquote +:+ " is not registered.").
Definition broadcast_error_text (name : value) : value :=
  VStr ("Broadcast error for plugin " +:+ dquote +:+ to_text name +:+ dquote +:+ ":").
Definition listener_error_text (event : value) : value :=
  VStr ("Listener error for event " +:+ dquote +:+ to_text event +:+ dquote +:+ ":").

(** [this.logger.error(...args)] *)
Definition log_error (args : list value) : M value :=
  tell (LogError args) ;;; lift_action (logger_error E args).

(** [callback(payload)] for a member of a listener set. *)
Definition call_listener (callback payload : value) : M value :=
  match callback with
  | VFun f => lift_action (listener_sem E f payload)
  | _ => throw not_a_function
  end.

(** [handler(message, context)] *)
Definition call_handler (handler message context : value) : M value :=
  match handler with
  | VFun f =>
      tell (CallHandler f message context) ;;;
      lift_action (handler_sem E f message context)
  | _ => throw not_a_function
  end.

(** Run a middleware from [st], giving it [next]. *)
Fixpoint run_stage (st : MwStep) (next : list value -> M value) (w : World)
  : Result value * World :=
  match st with
  | MwReturn r h => (r, set_heap h w)
  | MwNext args h k =>
      let (r, w') := next args (set_heap h w) in
      run_stage (k r (heap w')) next w'
  end.

(** [middleware(message, context, next)] *)
Definition call_middleware (middleware message context : value)
    (next : list value -> M value) : M value :=
  match middleware with
  | VFun f =>
      tell (CallMiddleware f message context) ;;;
      fun w => run_stage (middleware_sem E f message context (heap w)) next w
  | _ => throw not_a_function
  end.

(** The body of the loop of [emit]: one listener, in its [try]. *)
Definition notify (event payload callback : value) : M unit :=
  r <- settle (call_listener callback payload) ;;
  tell (CallListener callback payload r) ;;;
  match r with
  | Returned _ => ret tt
  | Thrown error => log_error [listener_error_text event; error] ;;; ret tt
  end.

Definition emit (event payload : value) : M unit :=
  content <- gets (fun w => deref (heap w) payload) ;;
  tell (Emit event payload content) ;;;
  callbacks <- gets (fun w => JsMap.get (listeners w) event) ;;
  match callbacks with
  | None => ret tt
  | Some callbacks => for_each callbacks (notify event payload)
  end.

Definition registerPlugin (name handler : value) : M value :=
  if negb (truthy name) || negb (String.eqb (typeof name) "string") then
    throw name_error
  else if negb (String.eqb (typeof handler) "function") then
    throw handler_error
  else
    has <- gets (fun w => JsMap.has (plugins w) name) ;;
    if has : bool then throw (duplicate_error name)
    else
      modify (fun w => set_plugins (JsMap.set (plugins w) name handler) w) ;;;
      payload <- alloc {[ "name" := name ]} ;;
      emit (VStr "plugin:registered") payload ;;;
      ret VUndefined.

Definition unregisterPlugin (name : value) : M value :=
  deleted <- (fun w =>
    let (d, p) := JsMap.delete (plugins w) name in
    (Returned d, set_plugins p w)) ;;
  if deleted : bool then
    payload <- alloc {[ "name" := name ]} ;;
    emit (VStr "plugin:unregistered") payload ;;;
    ret VUndefined
  else ret VUndefined.

Definition use (middleware : value) : M value :=
  if negb (String.eqb (typeof middleware) "function") then
    throw middleware_error
  else
    modify (fun w => set_middlewares (middlewares w ++ [middleware]) w) ;;;
    ret VUndefined.

(** The pipeline of [send]: the middleware array folded from the right
    around the handler call.  Each stage is a function of no parameter;
    whatever it is called with is dropped. *)
Definition compose (mws : list value) (handler message context : value)
  : list value -> M value :=
  reduceRight
    (fun next middleware => fun _ => call_middleware middleware message context next)
    (fun _ => call_handler handler message context)
    mws.

Definition send (name message context : value) : M value :=
  context <- default_param context ;;
  has <- gets (fun w => JsMap.has (plugins w) name) ;;
  if negb has then throw (unknown_error name)
  else
    handler <- gets (fun w => default VUndefined (JsMap.get (plugins w) name)) ;;
    mws <- gets middlewares ;;
    response <- compose mws handler message context [] ;;
    payload <- alloc {[ "name" := name; "message" := message; "response" := response ]} ;;
    emit (VStr "plugin:message") payload ;;;
    ret response.

(** [names.map(task)]: every task is started and runs to its outcome. *)
Fixpoint map_tasks (task : value -> M value) (names : list value)
  : M (list (Result value)) :=
  match names with
  | [] => ret []
  | name :: names' =>
      r <- settle (task name) ;;
      rs <- map_tasks task names' ;;
      ret (r :: rs)
  end.

(** The task of one target in [broadcast]: its [send], with the
    [catch] that reports the failure and puts its message in the slot. *)
Definition target (message context name : value) : M value :=
  try_catch (send name message context) (fun error =>
    log_error [broadcast_error_text name; error] ;;;
    text <- get_message error ;;
    alloc {[ "error" := text ]}).

Definition broadcast (message context : value) : M (list value) :=
  context <- default_param context ;;
  names <- gets (fun w => JsMap.keys (plugins w)) ;;
  tasks <- map_tasks (target message context) names ;;
  fun w => (promise_all tasks, w).

Definition on (event callback : value) : M value :=
  has <- gets (fun w => JsMap.has (listeners w) event) ;;
  (if negb has
   then modify (fun w => set_listeners (JsMap.set (listeners w) event []) w)
   else ret tt) ;;;
  set <- gets (fun w => JsMap.get (listeners w) event) ;;
  match set with
  | Some s =>
      modify (fun w =>
        set_listeners (JsMap.set (listeners w) event (JsSet.add s callback)) w) ;;;
      ret VUndefined
  | None => throw (VError "Cannot read properties of undefined (reading 'add')")
  end.

Definition off (event callback : value) : M value :=
  has <- gets (fun w => JsMap.has (listeners w) event) ;;
  if has : bool then
    set <- gets (fun w => JsMap.get (listeners w) event) ;;
    match set with
    | Some s =>
        modify (fun w =>
          set_listeners (JsMap.set (listeners w) event (JsSet.delete s callback)) w) ;;;
        ret VUndefined
    | None => throw (VError "Cannot read properties of undefined (reading 'delete')")
    end
  else ret VUndefined.

End PluginBridge.

(** ** Vocabulary of the specification *)

(** The error kinds of the specification.  The code raises plain [Error]
    objects; a kind is told by the message. *)
Definition InvalidArgument (e : value) : Prop :=
  e = name_error \/ e = handler_error \/ e = middleware_error.
Definition DuplicatePlugin (E : Env) (name e : value) : Prop :=
  e = duplicate_error E name.
Definition UnknownPlugin (E : Env) (name e : value) : Prop :=
  e = unknown_error E name.

Definition nonempty_string (v : value) : Prop :=
  exists s, v = VStr s /\ s <> EmptyString.
Definition invocable (v : value) : Prop := exists f, v = VFun f.

(** The [TypeError] of reading [message] from [undefined] or [null]. *)
Definition nullish_type_error (e : value) : Prop :=
  e = VError "Cannot read properties of undefined (reading 'message')" \/
  e = VError "Cannot read properties of null (reading 'message')".

(** The logger's [error] returns normally, as [console.error] does. *)
Definition sink_returns (E : Env) : Prop :=
  forall args h, exists v h', logger_error E args h = (Returned v, h').

Definition is_stage_call (e : entry) : bool :=
  match e with CallHandler _ _ _ | CallMiddleware _ _ _ => true | _ => false end.
(** Entries left by the loop of [emit]. *)
Definition is_report (e : entry) : Prop :=
  match e with
  | CallListener _ _ _ | LogError _ => True
  | _ => False
  end.

(** The listeners called, in order. *)
Definition called (d : list entry) : list value :=
  omap (fun e => match e with CallListener c _ _ => Some c | _ => None end) d.


(** A stage call carries this message and this context. *)
Definition stage_receives (message context : value) (e : entry) : Prop :=
  match e with
  | CallHandler _ m c | CallMiddleware _ m c => m = message /\ c = context
  | _ => True
  end.

(** What one emission leaves in the trace after its [Emit] entry: each
    listener call, followed by a report when the listener failed. *)
Definition reports (E : Env) (event payload : value)
    (calls : list (value * Result value)) : list entry :=
  flat_map (fun c : value * Result value =>
    CallListener c.1 payload c.2 ::
    match c.2 with
    | Thrown error => [LogError [listener_error_text E event; error]]
    | Returned _ => []
    end) calls.

(** What calling [callback] with [payload] settles to on the heap [h],
    and the heap it leaves: the outcome of the function, or the
    [TypeError] of calling what is not a function. *)
Definition listener_outcome (E : Env) (payload callback : value) (h : list obj)
  : Result value * list obj :=
  match callback with
  | VFun f => listener_sem E f payload h
  | _ => (Thrown not_a_function, h)
  end.


(** The listeners subscribed to an event: its set, empty if the map has
    no entry for it. *)
Definition subscribers (w : World) (event : value) : list value :=
  default [] (JsMap.get (listeners w) event).

(** Every listener set is duplicate-free, as a [Set] is. *)
Definition listener_sets_nodup (w : World) : Prop :=
  forall event s, JsMap.get (listeners w) event = Some s -> NoDup s.



(** [w'] has the plugins, middleware and listeners of [w]. *)
Definition same_bridge (w w' : World) : Prop :=
  plugins w' = plugins w /\ middlewares w' = middlewares w /\
  listeners w' = listeners w.

(** [m] leaves the fields of the bridge as they are and adds to the
    trace only entries that satisfy [P]. *)
Definition appends {A} (P : entry -> Prop) (m : M A) : Prop :=
  forall w,
    same_bridge w (m w).2 /\
    exists d, trace (m w).2 = trace w ++ d /\ Forall P d.

(** The shape the methods keep: keys are unique, plugin names are
    non-empty strings, handlers and middleware are functions, and the
    listener sets are duplicate-free. *)
Definition well_formed (w : World) : Prop :=
  NoDup (plugins w).*1 /\
  Forall (fun p : value * value => nonempty_string p.1 /\ invocable p.2) (plugins w) /\
  Forall invocable (middlewares w) /\
  NoDup (listeners w).*1 /\
  listener_sets_nodup w.

(** The worlds a program can reach: a new bridge, then any calls of the
    methods, the application changing the heap in between. *)
Inductive reachable (E : Env) : World -> Prop :=
| reach_constructor h : reachable E (constructor h)
| reach_heap w h : reachable E w -> reachable E (set_heap h w)
| reach_registerPlugin w name handler :
    reachable E w -> reachable E (registerPlugin E name handler w).2
| reach_unregisterPlugin w name :
    reachable E w -> reachable E (unregisterPlugin E name w).2
| reach_use w middleware : reachable E w -> reachable E (use middleware w).2
| reach_send w name message context :
    reachable E w -> reachable E (send E name message context w).2
| reach_broadcast w message context :
    reachable E w -> reachable E (broadcast E message context w).2
| reach_on w event callback : reachable E w -> reachable E (on event callback w).2
| reach_off w event callback : reachable E w -> reachable E (off event callback w).2.

(** The middleware and handler calls of a piece of trace, in order. *)
Definition stage_calls (d : list entry) : list entry :=
  filter (fun e => is_stage_call e) d.

(** The world after [use] was called for each element of [ms], first to
    last. *)
Definition use_each (ms : list value) (w : World) : World :=
  foldl (fun w m => (use m w).2) w ms.

(** The handler call a broadcast owes the plugin registered as [name]. *)
Definition owed_call (w : World) (message context name : value) : option entry :=
  match JsMap.get (plugins w) name with
  | Some (VFun f) => Some (CallHandler f message context)
  | _ => None
  end.





(** The logger's [error] throws. *)
Definition sink_throws (E : Env) : Prop :=
  forall args h, exists e h', logger_error E args h = (Thrown e, h').

(** A listener that returns, and one that fails, on every heap. *)
Definition listener_returns (E : Env) (payload callback : value) : Prop :=
  exists f, callback = VFun f /\
    forall h, exists v h', listener_sem E f payload h = (Returned v, h').
Definition listener_fails (E : Env) (payload callback : value) : Prop :=
  forall f, callback = VFun f ->
    forall h, exists e h', listener_sem E f payload h = (Thrown e, h').

(** ** The loop of [emit] over the live set *)

(** [emit] loops over the [Set] object itself, and a listener may call
    [on] and [off] while it runs: the loop then sees the set as those
    calls leave it.  [Live] models the listener sets as ECMAScript
    specifies a [Set] (its [SetData]): the list of the entries in
    insertion order, in which [delete] leaves a hole, so that a running
    iteration keeps its position, and [add] appends unless the value is
    there.  A listener has, besides its action on the heap, the calls of
    [on] and [off] it makes while it runs ([calls_of]).  The loop can
    go on for ever (a listener that subscribes a new one each time), so
    [emit] takes the number of entries it may visit. *)
Module Live.

Definition add (s : list (option value)) (x : value) : list (option value) :=
  if decide (Some x ∈ s) then s else s ++ [Some x].

Definition delete (s : list (option value)) (x : value) : list (option value) :=
  (fun e => if decide (e = Some x) then None else e) <$> s.

(** The values of the set, in insertion order. *)
Definition members (s : list (option value)) : list value := omap id s.

(** A call of [on] or [off]. *)
Inductive call : Type :=
| On (event callback : value)
| Off (event callback : value).

(** The listener sets, the heap, the trace, and the calls of [on] and
    [off] made by listeners so far. *)
Record World : Type := mkWorld {
  sets : list (value * list (option value));
  heap : list obj;
  trace : list entry;
  made : list call
}.

Definition set_sets (s : list (value * list (option value))) (w : World) : World :=
  mkWorld s (heap w) (trace w) (made w).
Definition set_heap (h : list obj) (w : World) : World :=
  mkWorld (sets w) h (trace w) (made w).
Definition add_event (e : entry) (w : World) : World :=
  mkWorld (sets w) (heap w) (trace w ++ [e]) (made w).
Definition add_made (c : call) (w : World) : World :=
  mkWorld (sets w) (heap w) (trace w) (made w ++ [c]).

Definition constructor (h : list obj) : World := mkWorld [] h [] [].

Definition on (event callback : value) (w : World) : Result value * World :=
  let w1 := if JsMap.has (sets w) event then w
            else set_sets (JsMap.set (sets w) event []) w in
  match JsMap.get (sets w1) event with
  | Some s =>
      (Returned VUndefined,
       set_sets (JsMap.set (sets w1) event (add s callback)) w1)
  | None =>
      (Thrown (VError "Cannot read properties of undefined (reading 'add')"), w1)
  end.

Definition off (event callback : value) (w : World) : Result value * World :=
  if JsMap.has (sets w) event then
    match JsMap.get (sets w) event with
    | Some s =>
        (Returned VUndefined,
         set_sets (JsMap.set (sets w) event (delete s callback)) w)
    | None =>
        (Thrown (VError "Cannot read properties of undefined (reading 'delete')"), w)
    end
  else (Returned VUndefined, w).

(** A listener calls [on] or [off]. *)
Definition perform (c : call) (w : World) : World :=
  match c with
  | On event callback => (on event callback (add_made c w)).2
  | Off event callback => (off event callback (add_made c w)).2
  end.

(** The listeners of an event: the values of its set, none if the map
    has no entry for it. *)
Definition subscribers (w : World) (event : value) : list value :=
  members (default [] (JsMap.get (sets w) event)).

(** The listener map the sets stand for: each set with its values. *)
Definition listeners_of (w : World) : list (value * list value) :=
  (fun p : value * list (option value) => (p.1, members p.2)) <$> sets w.


Section emit.
Context (E : Env) (calls_of : fid -> value -> list obj -> list call).

(** [callback(payload)]: the function acts on the heap and makes its
    calls of [on] and [off]. *)
Definition call_listener (callback payload : value) (w : World)
  : Result value * World :=
  match callback with
  | VFun f =>
      let (r, h) := listener_sem E f payload (heap w) in
      (r, foldl (fun w' c => perform c w') (set_heap h w)
            (calls_of f payload (heap w)))
  | _ => (Thrown not_a_function, w)
  end.

(** [this.logger.error(...args)] *)
Definition log_error (args : list value) (w : World) : Result value * World :=
  let w1 := add_event (LogError args) w in
  let (r, h) := logger_error E args (heap w1) in (r, set_heap h w1).

(** The loop of [emit] from position [index] of the set of [event]: the
    entry at that position is read from the set as it is now; the loop
    ends when the position is past the last entry. *)
Fixpoint visit (fuel index : nat) (event payload : value) (w : World)
  : option (Result unit * World) :=
  match fuel with
  | 0 => None
  | S fuel' =>
      match default [] (JsMap.get (sets w) event) !! index with
      | None => Some (Returned tt, w)
      | Some None => visit fuel' (S index) event payload w
      | Some (Some callback) =>
          let (r, w1) := call_listener callback payload w in
          let w2 := add_event (CallListener callback payload r) w1 in
          match r with
          | Returned _ => visit fuel' (S index) event payload w2
          | Thrown error =>
              match log_error [listener_error_text E event; error] w2 with
              | (Returned _, w3) => visit fuel' (S index) event payload w3
              | (Thrown e, w3) => Some (Thrown e, w3)
              end
          end
      end
  end.

Definition emit (fuel : nat) (event payload : value) (w : World)
  : option (Result unit * World) :=
  let w1 := add_event (Emit event payload (deref (heap w) payload)) w in
  if JsMap.has (sets w) event then visit fuel 0 event payload w1
  else Some (Returned tt, w1).
End emit.

(** The calls of [on] and [off] that [callback] makes when it is called
    with [payload] on the heap [h]. *)
Definition calls (calls_of : fid -> value -> list obj -> list call)
    (payload callback : value) (h : list obj) : list call :=
  match callback with
  | VFun f => calls_of f payload h
  | _ => []
  end.

(** No listener calls [on] or [off] in the emission to [callbacks] that
    starts on the heap [h]: not the first one on [h], and none of the
    others on the heap on which it is called, the one left by the
    listeners, and the reports to the logger, before it. *)
Inductive no_call (E : Env) (calls_of : fid -> value -> list obj -> list call)
    (event payload : value) : list value -> list obj -> Prop :=
| no_call_done h : no_call E calls_of event payload [] h
| no_call_returned c cs h v h1 :
    calls calls_of payload c h = [] ->
    listener_outcome E payload c h = (Returned v, h1) ->
    no_call E calls_of event payload cs h1 ->
    no_call E calls_of event payload (c :: cs) h
| no_call_reported c cs h e h1 v h2 :
    calls calls_of payload c h = [] ->
    listener_outcome E payload c h = (Thrown e, h1) ->
    logger_error E [listener_error_text E event; e] h1 = (Returned v, h2) ->
    no_call E calls_of event payload cs h2 ->
    no_call E calls_of event payload (c :: cs) h
| no_call_aborted c cs h e h1 e' h2 :
    calls calls_of payload c h = [] ->
    listener_outcome E payload c h = (Thrown e, h1) ->
    logger_error E [listener_error_text E event; e] h1 = (Thrown e', h2) ->
    no_call E calls_of event payload (c :: cs) h.
End Live.

(** ** Sample applications *)

Module Sample.
(** Handlers: [0] returns ["v"], [1] fails with [Error("boom")], [2]
    rejects with no reason. *)
Definition handlers (f : fid) (message context : value) : Action :=
  fun h =>
    match f with
    | 0 => (Returned (VStr "v"), h)
    | 1 => (Thrown (VError "boom"), h)
    | 2 => (Thrown VUndefined, h)
    | _ => (Returned message, h)
    end.

(** Middleware: [10] calls [next("transformed", 1)] and returns what it
    settles to, [11] returns ["short"] without calling [next], the
    others return [next()]. *)
Definition stages (f : fid) (message context : value) (h : list obj) : MwStep :=
  match f with
  | 10 => MwNext [VStr "transformed"; VNum 1] h (fun r h' => MwReturn r h')
  | 11 => MwReturn (Returned (VStr "short")) h
  | _ => MwNext [] h (fun r h' => MwReturn r h')
  end.

(** Listeners: [20] throws, the others return. *)
Definition callbacks (f : fid) (payload : value) : Action :=
  fun h =>
    match f with
    | 20 => (Thrown (VError "listener failed"), h)
    | _ => (Returned VUndefined, h)
    end.

Definition logger (args : list value) : Action :=
  fun h => (Returned VUndefined, h).

Definition env : Env :=
  mkEnv handlers stages callbacks logger (fun _ => "[object Object]").

Definition run (m : M value) (w : World) : World := (m w).2.

(** A fresh bridge, then plugins [A] (handler 0) and [B] (handler 1). *)
Definition two_plugins : World :=
  run (registerPlugin env (VStr "B") (VFun 1))
    (run (registerPlugin env (VStr "A") (VFun 0)) (constructor [])).

(** ... with middleware 12 then 13. *)
Definition two_stages : World :=
  run (use (VFun 13)) (run (use (VFun 12)) two_plugins).

(** ... with middleware 11 (which stops) then 13. *)
Definition stopped : World :=
  run (use (VFun 13)) (run (use (VFun 11)) two_plugins).

(** ... with middleware 10 alone. *)
Definition transforming : World := run (use (VFun 10)) two_plugins.

(** Listeners 20 (failing) and 21 on [plugin:message]. *)
Definition two_listeners : World :=
  run (on (VStr "plugin:message") (VFun 21))
    (run (on (VStr "plugin:message") (VFun 20)) two_plugins).

(** A bridge whose only plugin rejects with no reason. *)
Definition rejecting : World :=
  run (registerPlugin env (VStr "C") (VFun 2)) (constructor []).
End Sample.

(** ** Further sample applications *)

Module Cases.
(** A logger whose [error] throws. *)
Definition failing_logger (args : list value) : Action :=
  fun h => (Thrown (VError "logger failed"), h).

Definition env_failing_logger : Env :=
  mkEnv Sample.handlers Sample.stages Sample.callbacks failing_logger
    (fun _ => "[object Object]").

(** Handlers: [5] fails with the string ["boom"], the others are those
    of [Sample]. *)
Definition handlers (f : fid) (message context : value) : Action :=
  fun h =>
    match f with
    | 5 => (Thrown (VStr "boom"), h)
    | _ => Sample.handlers f message context h
    end.

Definition env : Env :=
  mkEnv handlers Sample.stages Sample.callbacks Sample.logger
    (fun _ => "[object Object]").

(** A new bridge with plugin [S], whose handler throws a string. *)
Definition throwing_string : World :=
  Sample.run (registerPlugin env (VStr "S") (VFun 5)) (constructor []).



End Cases.

(** ** Listeners that call [on] and [off] *)

Module LiveCases.
Definition event : value := VStr "plugin:message".


Definition no_calls (f : fid) (payload : value) (h : list obj) : list Live.call := [].

(** A new bridge with listeners 40 and 41 subscribed to [event], in
    that order. *)
Definition two_listeners : Live.World :=
  (Live.on event (VFun 41) (Live.on event (VFun 40) (Live.constructor [])).2).2.

(** The same bridge with its listener sets as lists. *)
Definition listed : World :=
  Sample.run (on event (VFun 41)) (Sample.run (on event (VFun 40)) (constructor [])).
End LiveCases.

(** * Properties *)

(** ** Map and Set *)

Module JsMapFacts.
Section facts.
Context {V : Type}.
Implicit Types (m : list (value * V)) (k : value) (v : V).

Lemma has_true m k : JsMap.has m k = true <-> k ∈ m.*1.
Proof. unfold JsMap.has. by rewrite bool_decide_eq_true. Qed.

Lemma has_false m k : JsMap.has m k = false <-> k ∉ m.*1.
Proof. unfold JsMap.has. by rewrite bool_decide_eq_false. Qed.

Lemma get_None m k : JsMap.get m k = None <-> k ∉ m.*1.
Proof.
  induction m as [|[k' v'] m IH]; simpl.
  - split; [intros _; apply not_elem_of_nil | done].
  - rewrite not_elem_of_cons. case_decide; subst.
    + split; [done | intros [? _]; done].
    + rewrite IH. split; [intros ?; split; [by intros -> | done] | by intros [_ ?]].
Qed.

Lemma has_get m k : JsMap.has m k = true <-> is_Some (JsMap.get m k).
Proof.
  rewrite has_true. destruct (JsMap.get m k) eqn:Hg.
  - split; [eauto | intros _].
    destruct (decide (k ∈ m.*1)) as [|Hn]; [done |].
    apply get_None in Hn. congruence.
  - apply get_None in Hg. split; [done | intros [? ?]; done].
Qed.

Lemma get_set_eq m k v : JsMap.get (JsMap.set m k v) k = Some v.
Proof.
  induction m as [|[k' v'] m IH]; simpl.
  - by rewrite decide_True.
  - case_decide; simpl; subst.
    + by rewrite decide_True.
    + by rewrite decide_False.
Qed.

Lemma get_set_ne m k k' v :
  k <> k' -> JsMap.get (JsMap.set m k v) k' = JsMap.get m k'.
Proof.
  intros Hne. induction m as [|[k0 v0] m IH]; simpl.
  - by rewrite decide_False.
  - case_decide; simpl; subst.
    + by rewrite !decide_False.
    + by rewrite IH.
Qed.

Lemma set_set m k v v' : JsMap.set (JsMap.set m k v) k v' = JsMap.set m k v'.
Proof.
  induction m as [|[k0 v0] m IH]; simpl.
  - by rewrite decide_True.
  - case_decide; simpl; subst.
    + by rewrite decide_True.
    + rewrite decide_False by done. by rewrite IH.
Qed.

Lemma set_same m k v : JsMap.get m k = Some v -> JsMap.set m k v = m.
Proof.
  induction m as [|[k0 v0] m IH]; simpl; [done |].
  case_decide; subst.
  - by intros [= ->].
  - intros Hg. by rewrite IH.
Qed.

Lemma delete_absent m k : k ∉ m.*1 -> (JsMap.delete m k).2 = m.
Proof.
  simpl. induction m as [|[k' v'] m IH]; [done |].
  rewrite fmap_cons, not_elem_of_cons. intros [Hne Hm].
  rewrite filter_cons_True by (simpl; by intros ->).
  by rewrite IH.
Qed.

Lemma delete_gone m k : k ∉ (JsMap.delete m k).2.*1.
Proof.
  simpl. intros ([k' v] & -> & [Hk _]%list_elem_of_filter)%list_elem_of_fmap.
  by apply Hk.
Qed.
End facts.
End JsMapFacts.

Module JsSetFacts.
Implicit Types (s : list value) (x y : value).

Lemma elem_of_add s x y : y ∈ JsSet.add s x <-> y = x \/ y ∈ s.
Proof.
  unfold JsSet.add. case_decide.
  - split; [by right | intros [-> | ?]; done].
  - rewrite elem_of_app, list_elem_of_singleton. tauto.
Qed.

Lemma add_again s x : JsSet.add (JsSet.add s x) x = JsSet.add s x.
Proof.
  unfold JsSet.add at 1. rewrite decide_True; [done |].
  apply elem_of_add. by left.
Qed.

Lemma add_nodup s x : NoDup s -> NoDup (JsSet.add s x).
Proof.
  intros Hs. unfold JsSet.add. case_decide; [done |].
  apply NoDup_app. split_and!; [done | | apply NoDup_singleton].
  intros y Hy ->%list_elem_of_singleton. done.
Qed.

Lemma elem_of_delete s x y : y ∈ JsSet.delete s x <-> y <> x /\ y ∈ s.
Proof. unfold JsSet.delete. by rewrite list_elem_of_filter. Qed.

Lemma delete_not_member s x : x ∉ s -> JsSet.delete s x = s.
Proof.
  unfold JsSet.delete. induction s as [|y s IH]; [done |].
  rewrite not_elem_of_cons. intros [Hne Hs].
  rewrite filter_cons_True by (by intros ->). by rewrite IH.
Qed.

Lemma delete_again s x : JsSet.delete (JsSet.delete s x) x = JsSet.delete s x.
Proof. apply delete_not_member. rewrite elem_of_delete. by intros [? _]. Qed.

Lemma delete_nodup s x : NoDup s -> NoDup (JsSet.delete s x).
Proof. apply NoDup_filter. Qed.
End JsSetFacts.

(** ** What a computation adds to the trace *)

Section Appends.
Context (E : Env) (P : entry -> Prop).

Lemma same_bridge_refl w : same_bridge w w.
Proof. by repeat split. Qed.

Lemma same_bridge_trans w1 w2 w3 :
  same_bridge w1 w2 -> same_bridge w2 w3 -> same_bridge w1 w3.
Proof. unfold same_bridge. intuition congruence. Qed.

Lemma appends_intro_nil {A} (m : M A) :
  (forall w, same_bridge w (m w).2 /\ trace (m w).2 = trace w) -> appends P m.
Proof.
  intros H w. destruct (H w) as [Hb Ht]. split; [done |].
  exists []. by rewrite app_nil_r.
Qed.

Lemma appends_ret {A} (a : A) : appends P (ret a).
Proof. apply appends_intro_nil. intros w. split; [apply same_bridge_refl | done]. Qed.

Lemma appends_throw {A} e : appends P (@throw A e).
Proof. apply appends_intro_nil. intros w. split; [apply same_bridge_refl | done]. Qed.

Lemma appends_gets {A} (f : World -> A) : appends P (gets f).
Proof. apply appends_intro_nil. intros w. split; [apply same_bridge_refl | done]. Qed.

Lemma appends_tell e : P e -> appends P (tell e).
Proof.
  intros He w. split; [by repeat split |].
  exists [e]. split; [done | by constructor].
Qed.

Lemma appends_bind {A B} (m : M A) (f : A -> M B) :
  appends P m -> (forall a, appends P (f a)) -> appends P (bind m f).
Proof.
  intros Hm Hf w. unfold bind.
  destruct (Hm w) as [Hb (d & Ht & Hd)].
  destruct (m w) as [[a | e] w1]; simpl in *.
  - destruct (Hf a w1) as [Hb' (d' & Ht' & Hd')].
    split; [by eapply same_bridge_trans |].
    exists (d ++ d'). rewrite Ht', Ht, app_assoc.
    split; [done | by apply Forall_app].
  - split; [done |]. by exists d.
Qed.

Lemma appends_try_catch {A} (m : M A) (h : value -> M A) :
  appends P m -> (forall e, appends P (h e)) -> appends P (try_catch m h).
Proof.
  intros Hm Hh w. unfold try_catch.
  destruct (Hm w) as [Hb (d & Ht & Hd)].
  destruct (m w) as [[a | e] w1]; simpl in *.
  - split; [done |]. by exists d.
  - destruct (Hh e w1) as [Hb' (d' & Ht' & Hd')].
    split; [by eapply same_bridge_trans |].
    exists (d ++ d'). rewrite Ht', Ht, app_assoc.
    split; [done | by apply Forall_app].
Qed.

Lemma appends_settle {A} (m : M A) : appends P m -> appends P (settle m).
Proof.
  intros Hm w. unfold settle. specialize (Hm w).
  by destruct (m w) as [r w1].
Qed.

Lemma appends_lift_action (a : Action) : appends P (lift_action a).
Proof.
  apply appends_intro_nil. intros w. unfold lift_action.
  destruct (a (heap w)) as [r h]. by repeat split.
Qed.

Lemma appends_alloc (o : obj) : appends P (alloc o).
Proof. apply appends_intro_nil. intros w. by repeat split. Qed.

Lemma appends_default_param v : appends P (default_param v).
Proof. destruct v; first [apply appends_alloc | apply appends_ret]. Qed.

Lemma appends_get_message e : appends P (get_message e).
Proof.
  destruct e; first [apply appends_throw | apply appends_ret | apply appends_gets].
Qed.

Lemma appends_for_each {A} (l : list A) (body : A -> M unit) :
  (forall x, appends P (body x)) -> appends P (for_each l body).
Proof.
  intros Hb. induction l as [|x l IH]; simpl.
  - apply appends_ret.
  - apply appends_bind; [apply Hb | intros _; apply IH].
Qed.

Lemma appends_run_stage st (next : list value -> M value) :
  (forall args, appends P (next args)) -> appends P (run_stage st next).
Proof.
  intros Hn. induction st as [r h | args h k IH]; intros w; simpl.
  - split; [by repeat split |]. exists []. by rewrite app_nil_r.
  - destruct (Hn args (set_heap h w)) as [Hb (d & Ht & Hd)].
    destruct (next args (set_heap h w)) as [r w1]; simpl in *.
    destruct (IH r (heap w1) w1) as [Hb' (d' & Ht' & Hd')].
    split; [by eapply same_bridge_trans |].
    exists (d ++ d'). rewrite Ht', Ht, app_assoc.
    split; [done | by apply Forall_app].
Qed.

Lemma appends_log_error args :
  P (LogError args) -> appends P (log_error E args).
Proof.
  intros HP. apply appends_bind; [by apply appends_tell |].
  intros _. apply appends_lift_action.
Qed.

Lemma appends_call_listener callback payload :
  appends P (call_listener E callback payload).
Proof. destruct callback; first [apply appends_lift_action | apply appends_throw]. Qed.

Lemma appends_call_handler handler message context :
  (forall f, handler = VFun f -> P (CallHandler f message context)) ->
  appends P (call_handler E handler message context).
Proof.
  intros HP. destruct handler; try apply appends_throw.
  apply appends_bind; [apply appends_tell; by apply HP |].
  intros _. apply appends_lift_action.
Qed.

Lemma appends_call_middleware middleware message context next :
  (forall f, middleware = VFun f -> P (CallMiddleware f message context)) ->
  (forall args, appends P (next args)) ->
  appends P (call_middleware E middleware message context next).
Proof.
  intros HP Hn. destruct middleware; try apply appends_throw.
  apply appends_bind; [apply appends_tell; by apply HP |].
  intros _ w. by apply appends_run_stage.
Qed.
End Appends.

(** ** The pipeline *)

Lemma reduceRight_cons {A B} (f : B -> A -> B) init x l :
  reduceRight f init (x :: l) = f (reduceRight f init l) x.
Proof. unfold reduceRight. simpl. by rewrite fold_left_app. Qed.

Lemma reduceRight_fold_right {A B} (f : B -> A -> B) init l :
  reduceRight f init l = fold_right (fun x acc => f acc x) init l.
Proof. induction l as [|x l IH]; [done |]. by rewrite reduceRight_cons, IH. Qed.

Section Pipeline.
Context (E : Env).

Lemma compose_nil handler message context :
  compose E [] handler message context =
  fun _ => call_handler E handler message context.
Proof. reflexivity. Qed.

Lemma compose_cons middleware mws handler message context :
  compose E (middleware :: mws) handler message context =
  fun _ => call_middleware E middleware message context
             (compose E mws handler message context).
Proof. unfold compose. by rewrite reduceRight_cons. Qed.

(** A stage of the pipeline takes no parameter. *)
Lemma compose_args mws handler message context args args' :
  compose E mws handler message context args =
  compose E mws handler message context args'.
Proof. destruct mws; [done |]. by rewrite compose_cons. Qed.

Lemma appends_compose P mws handler message context args :
  (forall f, VFun f ∈ mws -> P (CallMiddleware f message context)) ->
  (forall f, handler = VFun f -> P (CallHandler f message context)) ->
  appends P (compose E mws handler message context args).
Proof.
  intros Hm Hh. revert args. induction mws as [|mw mws IH]; intros args.
  - rewrite compose_nil. by apply appends_call_handler.
  - rewrite compose_cons. apply appends_call_middleware.
    + intros f ->. apply Hm. by left.
    + apply IH. intros f Hf. apply Hm. by right.
Qed.
End Pipeline.

(** ** Emission *)

Section Emission.
Context (E : Env).

Lemma called_app d d' : called (d ++ d') = called d ++ called d'.
Proof. apply omap_app. Qed.


Lemma called_reports event payload calls :
  called (reports E event payload calls) = calls.*1.
Proof.
  induction calls as [|[c r] calls IH]; [done |].
  unfold reports in *. simpl. destruct r; simpl; by rewrite IH.
Qed.

Lemma reports_are_reports event payload calls :
  Forall is_report (reports E event payload calls).
Proof.
  induction calls as [|[c r] calls IH]; [constructor |].
  unfold reports in *. simpl. destruct r; repeat constructor; done.
Qed.


Lemma call_listener_quiet callback payload w :
  trace (call_listener E callback payload w).2 = trace w /\
  same_bridge w (call_listener E callback payload w).2.
Proof.
  destruct callback; simpl; try (split; [done | apply same_bridge_refl]).
  unfold lift_action. destruct (listener_sem E f payload (heap w)).
  by repeat split.
Qed.

Lemma for_each_cons {A} (x : A) l body w :
  for_each (x :: l) body w =
  match body x w with
  | (Returned _, w') => for_each l body w'
  | (Thrown e, w') => (Thrown e, w')
  end.
Proof. reflexivity. Qed.

Lemma log_error_run args w :
  log_error E args w =
  let w1 := add_event (LogError args) w in
  let (r, h) := logger_error E args (heap w1) in (r, set_heap h w1).
Proof. reflexivity. Qed.

Lemma notify_run event payload callback w :
  notify E event payload callback w =
  let (r, w1) := call_listener E callback payload w in
  let w2 := add_event (CallListener callback payload r) w1 in
  match r with
  | Returned _ => (Returned tt, w2)
  | Thrown error =>
      match log_error E [listener_error_text E event; error] w2 with
      | (Returned _, w3) => (Returned tt, w3)
      | (Thrown e, w3) => (Thrown e, w3)
      end
  end.
Proof.
  unfold notify, bind, settle, tell, modify.
  destruct (call_listener E callback payload w) as [[v | error] w1]; [done |].
  by destruct (log_error E _ _) as [[? | ?] ?].
Qed.

(** The loop of [emit]: the listeners are called in order, a failure
    is reported and the loop goes on; only a failure of the logger
    ends it early. *)
Lemma listener_loop event payload callbacks w :
  exists outcomes,
    length outcomes <= length callbacks /\
    trace (for_each callbacks (notify E event payload) w).2 =
      trace w ++ reports E event payload (zip callbacks outcomes) /\
    same_bridge w (for_each callbacks (notify E event payload) w).2 /\
    (sink_returns E ->
     length outcomes = length callbacks /\
     (for_each callbacks (notify E event payload) w).1 = Returned tt).
Proof.
  revert w. induction callbacks as [|c cbs IH]; intros w.
  { exists []. simpl. rewrite app_nil_r. by repeat split. }
  rewrite for_each_cons, notify_run.
  destruct (call_listener_quiet c payload w) as [Hcl Hb].
  destruct (call_listener E c payload w) as [r w1]; simpl in Hcl, Hb.
  destruct r as [v | error]; simpl.
  - destruct (IH (add_event (CallListener c payload (Returned v)) w1))
      as (outs & Hlen & Ht & Hsb & Hsink).
    exists (Returned v :: outs). simpl. split; [lia |].
    split; [| split].
    + rewrite Ht. simpl. rewrite Hcl. by rewrite <- app_assoc.
    + eapply same_bridge_trans; [| exact Hsb]. exact Hb.
    + intros Hs. destruct (Hsink Hs) as [-> ?]. by split.
  - rewrite log_error_run. simpl.
    set (w2 := add_event (LogError [listener_error_text E event; error])
                 (add_event (CallListener c payload (Thrown error)) w1)).
    destruct (logger_error E [listener_error_text E event; error] (heap w1))
      as [[v | e] h] eqn:Hlog; simpl.
    + destruct (IH (set_heap h w2)) as (outs & Hlen & Ht & Hsb & Hsink).
      exists (Thrown error :: outs). simpl. split; [lia |].
      split; [| split].
      * rewrite Ht. simpl. rewrite Hcl. by rewrite <- !app_assoc.
      * eapply same_bridge_trans; [| exact Hsb]. exact Hb.
      * intros Hs. destruct (Hsink Hs) as [-> ?]. by split.
    + exists [Thrown error]. simpl. split; [lia |].
      split; [| split].
      * destruct cbs; simpl; rewrite Hcl; by rewrite <- !app_assoc.
      * exact Hb.
      * intros Hs. destruct (Hs [listener_error_text E event; error] (heap w1))
          as (v' & h' & Hv). congruence.
Qed.

Lemma emit_run event payload w :
  emit E event payload w =
  let w1 := add_event (Emit event payload (deref (heap w) payload)) w in
  match JsMap.get (listeners w) event with
  | None => (Returned tt, w1)
  | Some callbacks => for_each callbacks (notify E event payload) w1
  end.
Proof.
  unfold emit, bind, gets, tell, modify. simpl.
  by destruct (JsMap.get (listeners w) event).
Qed.

(** One emission: its [Emit] entry, then the calls and reports of the
    listeners subscribed to the event, in the order of the set. *)
Lemma emit_spec event payload w :
  exists outcomes,
    let callbacks := default [] (JsMap.get (listeners w) event) in
    length outcomes <= length callbacks /\
    trace (emit E event payload w).2 =
      trace w ++ Emit event payload (deref (heap w) payload)
                 :: reports E event payload (zip callbacks outcomes) /\
    same_bridge w (emit E event payload w).2 /\
    (sink_returns E ->
     length outcomes = length callbacks /\
     (emit E event payload w).1 = Returned tt).
Proof.
  rewrite emit_run. simpl.
  destruct (JsMap.get (listeners w) event) as [callbacks |]; simpl.
  - destruct (listener_loop event payload callbacks
                (add_event (Emit event payload (deref (heap w) payload)) w))
      as (outs & Hlen & Ht & Hsb & Hsink).
    exists outs. split; [done |]. split; [| split; [| done]].
    + rewrite Ht. simpl. by rewrite <- app_assoc.
    + eapply same_bridge_trans; [| exact Hsb]. by repeat split.
  - exists []. split; [done |]. by repeat split.
Qed.

Lemma appends_emit P event payload :
  (forall e, is_stage_call e = false -> P e) ->
  appends P (emit E event payload).
Proof.
  intros HP w. destruct (emit_spec event payload w) as (outs & _ & Ht & Hsb & _).
  split; [done |]. eexists. split; [exact Ht |].
  constructor; [by apply HP |].
  eapply Forall_impl; [apply reports_are_reports |].
  intros e He. apply HP. by destruct e.
Qed.
End Emission.

(** ** Subscription *)

Section Subscription.
Implicit Types (w : World) (event callback : value).

Lemma set_listeners_same w : set_listeners (listeners w) w = w.
Proof. by destruct w. Qed.

Lemma on_run event callback w :
  on event callback w =
  (Returned VUndefined,
   set_listeners
     (JsMap.set (listeners w) event (JsSet.add (subscribers w event) callback)) w).
Proof.
  unfold on, subscribers, bind, gets, modify, ret.
  destruct (JsMap.has (listeners w) event) eqn:Hhas; simpl.
  - apply JsMapFacts.has_get in Hhas as [s Hs]. by rewrite Hs.
  - apply JsMapFacts.has_false, JsMapFacts.get_None in Hhas.
    rewrite JsMapFacts.get_set_eq, Hhas. simpl.
    by rewrite JsMapFacts.set_set.
Qed.

Lemma off_run event callback w :
  off event callback w =
  (Returned VUndefined,
   match JsMap.get (listeners w) event with
   | Some s =>
       set_listeners (JsMap.set (listeners w) event (JsSet.delete s callback)) w
   | None => w
   end).
Proof.
  unfold off, bind, gets, modify, ret.
  destruct (JsMap.has (listeners w) event) eqn:Hhas; simpl.
  - apply JsMapFacts.has_get in Hhas as [s Hs]. by rewrite Hs.
  - apply JsMapFacts.has_false, JsMapFacts.get_None in Hhas. by rewrite Hhas.
Qed.

Lemma subscribers_on event callback w :
  subscribers (on event callback w).2 event =
  JsSet.add (subscribers w event) callback.
Proof.
  rewrite on_run. unfold subscribers at 1. simpl.
  by rewrite JsMapFacts.get_set_eq.
Qed.

Lemma subscribers_off event callback w :
  subscribers (off event callback w).2 event =
  JsSet.delete (subscribers w event) callback.
Proof.
  rewrite off_run. unfold subscribers. simpl.
  destruct (JsMap.get (listeners w) event) as [s |] eqn:Hs; simpl.
  - by rewrite JsMapFacts.get_set_eq.
  - by rewrite Hs.
Qed.

Lemma on_again event callback w :
  let w1 := (on event callback w).2 in
  on event callback w1 = (Returned VUndefined, w1).
Proof.
  intros w1. rewrite on_run. f_equal.
  unfold w1 at 2. rewrite subscribers_on.
  unfold w1. rewrite on_run. simpl.
  rewrite JsSetFacts.add_again. unfold set_listeners. simpl.
  by rewrite JsMapFacts.set_set.
Qed.

Lemma off_again event callback w :
  let w1 := (off event callback w).2 in
  off event callback w1 = (Returned VUndefined, w1).
Proof.
  intros w1. rewrite off_run. f_equal.
  unfold w1. rewrite off_run. simpl.
  destruct (JsMap.get (listeners w) event) as [s |] eqn:Hs; simpl.
  - rewrite JsMapFacts.get_set_eq, JsSetFacts.delete_again.
    unfold set_listeners. simpl. by rewrite JsMapFacts.set_set.
  - by rewrite Hs.
Qed.

Lemma nodup_set_listeners w event s :
  listener_sets_nodup w -> NoDup s ->
  listener_sets_nodup (set_listeners (JsMap.set (listeners w) event s) w).
Proof.
  intros Hw Hs event' s'. simpl.
  destruct (decide (event = event')) as [<- | Hne].
  - rewrite JsMapFacts.get_set_eq. by intros [= <-].
  - rewrite JsMapFacts.get_set_ne by done. apply Hw.
Qed.

Lemma nodup_subscribers w event : listener_sets_nodup w -> NoDup (subscribers w event).
Proof.
  intros Hw. unfold subscribers.
  destruct (JsMap.get (listeners w) event) eqn:Hs; simpl;
    [by eapply Hw | constructor].
Qed.

Lemma nodup_on event callback w :
  listener_sets_nodup w -> listener_sets_nodup (on event callback w).2.
Proof.
  intros Hw. rewrite on_run. simpl.
  apply nodup_set_listeners; [done |].
  by apply JsSetFacts.add_nodup, nodup_subscribers.
Qed.

Lemma nodup_off event callback w :
  listener_sets_nodup w -> listener_sets_nodup (off event callback w).2.
Proof.
  intros Hw. rewrite off_run. simpl.
  destruct (JsMap.get (listeners w) event) as [s |] eqn:Hs; [| done].
  apply nodup_set_listeners; [done |].
  by eapply JsSetFacts.delete_nodup, Hw.
Qed.

Lemma zip_fst_prefix {A B} (l : list A) (k : list B) :
  exists l', l = (zip l k).*1 ++ l'.
Proof.
  revert k. induction l as [|x l IH]; intros k; [by exists [] |].
  destruct k as [|y k]; [by exists (x :: l) |].
  destruct (IH k) as [l' Hl']. exists l'. simpl. by f_equal.
Qed.

(** An emission calls listeners of the event's set only, and each of
    them as often as it occurs in the set at most. *)
Lemma emit_calls_subscribers E event payload w d :
  trace (emit E event payload w).2 = trace w ++ d ->
  exists rest, subscribers w event = called d ++ rest.
Proof.
  intros Hd. destruct (emit_spec E event payload w) as (outs & _ & Ht & _).
  rewrite Ht in Hd. apply app_inv_head in Hd. subst d.
  change (called (?e :: ?l)) with (called l).
  rewrite called_reports. apply zip_fst_prefix.
Qed.
End Subscription.

(** ** Dispatch *)

Section Dispatch.
Context (E : Env).
Implicit Types (w : World) (name message context : value).


(** The default of the [context] parameter: [undefined] is replaced by
    one new empty object, any other value is kept. *)
Lemma default_param_inv context w :
  exists ctx w0,
    default_param context w = (Returned ctx, w0) /\
    ctx <> VUndefined /\ same_bridge w w0 /\ trace w0 = trace w /\
    (context = VUndefined ->
     ctx = VRef (length (heap w)) /\ w0 = set_heap (heap w ++ [∅]) w) /\
    (context <> VUndefined -> ctx = context /\ w0 = w).
Proof.
  destruct context; simpl;
    [ exists (VRef (length (heap w))), (set_heap (heap w ++ [∅]) w)
    | eexists _, w ..];
    (split; [reflexivity |]); split_and!; try done.
Qed.

Lemma default_param_kept ctx : ctx <> VUndefined -> default_param ctx = ret ctx.
Proof. by destruct ctx. Qed.

Lemma send_run name message context w ctx w0 :
  default_param context w = (Returned ctx, w0) ->
  send E name message context w =
  if JsMap.has (plugins w) name then
    match compose E (middlewares w)
            (default VUndefined (JsMap.get (plugins w) name)) message ctx [] w0 with
    | (Returned response, w1) =>
        match emit E (VStr "plugin:message") (VRef (length (heap w1)))
                (set_heap
                   (heap w1 ++
                    [{[ "name" := name; "message" := message;
                        "response" := response ]}]) w1) with
        | (Returned _, w2) => (Returned response, w2)
        | (Thrown e, w2) => (Thrown e, w2)
        end
    | (Thrown e, w1) => (Thrown e, w1)
    end
  else (Thrown (unknown_error E name), w0).
Proof.
  intros Hd.
  destruct (default_param_inv context w) as (c & w' & Hd' & _ & (Hp & Hm & _) & _).
  rewrite Hd in Hd'. injection Hd' as <- <-.
  unfold send. unfold bind at 1. rewrite Hd.
  unfold bind at 1, gets at 1. rewrite Hp.
  destruct (JsMap.has (plugins w) name); simpl; [| done].
  unfold bind at 1, gets at 1. unfold bind at 1, gets at 1.
  rewrite Hp, Hm. unfold bind at 1.
  destruct (compose E _ _ _ _ _ w0) as [[response | e] w1]; [| done].
  unfold bind at 1, alloc at 1. unfold bind at 1.
  by destruct (emit E _ _ _) as [[[] | e] w2].
Qed.

Lemma unregisterPlugin_run name w :
  unregisterPlugin E name w =
  if JsMap.has (plugins w) name then
    match emit E (VStr "plugin:unregistered") (VRef (length (heap w)))
            (set_heap (heap w ++ [{[ "name" := name ]}])
               (set_plugins (JsMap.delete (plugins w) name).2 w)) with
    | (Returned _, w') => (Returned VUndefined, w')
    | (Thrown e, w') => (Thrown e, w')
    end
  else (Returned VUndefined, set_plugins (JsMap.delete (plugins w) name).2 w).
Proof.
  unfold unregisterPlugin. unfold bind at 1. simpl.
  destruct (JsMap.has (plugins w) name); [| done].
  unfold bind at 1, alloc at 1. unfold bind at 1. simpl.
  by destruct (emit E _ _ _) as [[[] | e] w'].
Qed.

(** [send] to a name the map does not have stops at its first check. *)
Lemma send_not_registered name message context w :
  JsMap.has (plugins w) name = false ->
  exists w',
    send E name message context w = (Thrown (unknown_error E name), w') /\
    trace w' = trace w /\ same_bridge w w'.
Proof.
  intros Hhas.
  destruct (default_param_inv context w) as (ctx & w0 & Hd & _ & Hb & Ht & _).
  exists w0. rewrite (send_run name message context w ctx w0 Hd), Hhas.
  by split_and!.
Qed.

Lemma use_run f w :
  use (VFun f) w =
  (Returned VUndefined, set_middlewares (middlewares w ++ [VFun f]) w).
Proof. reflexivity. Qed.

(** The two argument checks of [registerPlugin]. *)
Lemma name_check name :
  negb (truthy name) || negb (String.eqb (typeof name) "string") = false <->
  nonempty_string name.
Proof.
  split.
  - destruct name as [| | b | n | s | f | l | m]; simpl;
      rewrite ?orb_true_r, ?orb_false_r; try discriminate.
    intros Hs. exists s. split; [done |]. intros ->. done.
  - intros (s & -> & Hs). simpl. rewrite orb_false_r.
    destruct (String.eqb s EmptyString) eqn:Heq; [| done].
    by apply String.eqb_eq in Heq.
Qed.

Lemma handler_check handler :
  negb (String.eqb (typeof handler) "function") = false <-> invocable handler.
Proof.
  split.
  - destruct handler as [| | b | n | s | f | l | m]; simpl; try discriminate.
    intros _. by exists f.
  - by intros [f ->].
Qed.

(** What a successful registration does. *)
Lemma registerPlugin_run s f w :
  s <> EmptyString ->
  JsMap.has (plugins w) (VStr s) = false ->
  registerPlugin E (VStr s) (VFun f) w =
  match emit E (VStr "plugin:registered") (VRef (length (heap w)))
          (set_heap (heap w ++ [{[ "name" := VStr s ]}])
             (set_plugins (JsMap.set (plugins w) (VStr s) (VFun f)) w)) with
  | (Returned _, w') => (Returned VUndefined, w')
  | (Thrown e, w') => (Thrown e, w')
  end.
Proof.
  intros Hs Hhas. unfold registerPlugin. simpl.
  destruct (String.eqb s EmptyString) eqn:Heq;
    [by apply String.eqb_eq in Heq |]. simpl.
  unfold bind at 1, gets at 1. rewrite Hhas.
  unfold bind at 1, modify at 1. unfold bind at 1, alloc at 1.
  unfold bind at 1. simpl.
  by destruct (emit E _ _ _) as [[[] | e] w'].
Qed.
End Dispatch.

(** ** The trace of a dispatch *)

Lemma appends_mono {A} (P Q : entry -> Prop) (m : M A) :
  (forall e, P e -> Q e) -> appends P m -> appends Q m.
Proof.
  intros HPQ Hm w. destruct (Hm w) as [Hb (d & Ht & Hd)].
  split; [done |]. exists d. split; [done |]. by eapply Forall_impl.
Qed.


Section DispatchTrace.
Context (E : Env).
Implicit Types (w : World) (name message context : value).



(** The trace of one [send], from that of its pipeline. *)
Lemma send_trace (P : entry -> Prop) name message context w ctx w0 :
  default_param context w = (Returned ctx, w0) ->
  (forall e, is_stage_call e = false -> P e) ->
  appends P (compose E (middlewares w)
               (default VUndefined (JsMap.get (plugins w) name)) message ctx []) ->
  same_bridge w (send E name message context w).2 /\
  exists d, trace (send E name message context w).2 = trace w ++ d /\ Forall P d.
Proof.
  intros Hd HP Hc.
  destruct (default_param_inv context w) as (c & w' & Hd' & _ & Hb0 & Ht0 & _).
  rewrite Hd in Hd'. injection Hd' as <- <-.
  rewrite (send_run E name message context w ctx w0 Hd).
  destruct (JsMap.has (plugins w) name).
  2:{ split; [done |]. exists []. by rewrite app_nil_r. }
  destruct (Hc w0) as [Hb1 (d1 & Ht1 & Hd1)].
  destruct (compose E _ _ _ _ _ w0) as [[response | e] w1]; simpl in *.
  2:{ split; [by eapply same_bridge_trans |]. exists d1. by rewrite Ht1, Ht0. }
  set (w2 := set_heap _ w1).
  destruct (appends_emit E P (VStr "plugin:message") (VRef (length (heap w1)))
              HP w2) as [Hb2 (d2 & Ht2 & Hd2)].
  assert (same_bridge w (emit E (VStr "plugin:message")
                           (VRef (length (heap w1))) w2).2) as Hb.
  { eapply same_bridge_trans; [exact Hb0 |].
    eapply same_bridge_trans; [exact Hb1 |].
    eapply same_bridge_trans; [| exact Hb2]. by repeat split. }
  assert (trace (emit E (VStr "plugin:message")
                   (VRef (length (heap w1))) w2).2 = trace w ++ d1 ++ d2) as Ht.
  { rewrite Ht2. simpl. by rewrite Ht1, Ht0, app_assoc. }
  destruct (emit E _ _ w2) as [[[] | e] w3]; simpl in *;
    (split; [done |]); exists (d1 ++ d2); (split; [done |]);
    by apply Forall_app.
Qed.
End DispatchTrace.

(** ** Broadcast *)

Section Broadcast.
Context (E : Env).
Implicit Types (w : World) (name message context : value).

Lemma map_tasks_returns (task : value -> M value) names w :
  exists rs, (map_tasks task names w).1 = Returned rs /\ length rs = length names.
Proof.
  revert w. induction names as [|name names IH]; intros w; simpl.
  - by exists [].
  - unfold bind at 1, settle. destruct (task name w) as [r w1].
    unfold bind at 1. destruct (IH w1) as (rs & Hrs & Hlen).
    destruct (map_tasks task names w1) as [rs' w2]; simpl in *. subst rs'.
    exists (r :: rs). simpl. by rewrite Hlen.
Qed.

Lemma appends_map_tasks P (task : value -> M value) names :
  (forall name, appends P (task name)) -> appends P (map_tasks task names).
Proof.
  intros Ht. induction names as [|name names IH]; simpl.
  - apply appends_ret.
  - apply appends_bind; [by apply appends_settle |].
    intros r. apply appends_bind; [done |]. intros rs. apply appends_ret.
Qed.

Lemma appends_send P name message ctx :
  ctx <> VUndefined ->
  (forall e, is_stage_call e = false -> P e) ->
  (forall f, P (CallMiddleware f message ctx)) ->
  (forall f, P (CallHandler f message ctx)) ->
  appends P (send E name message ctx).
Proof.
  intros Hctx HP Hm Hh w.
  apply (send_trace E P name message ctx w ctx w); [| done |].
  - by rewrite default_param_kept.
  - by apply appends_compose.
Qed.

Lemma broadcast_run message context w ctx w0 :
  default_param context w = (Returned ctx, w0) ->
  broadcast E message context w =
  let (tasks, w1) := map_tasks (target E message ctx) (JsMap.keys (plugins w)) w0 in
  match tasks with
  | Returned rs => (promise_all rs, w1)
  | Thrown e => (Thrown e, w1)
  end.
Proof.
  intros Hd.
  destruct (default_param_inv context w) as (c & w' & Hd' & _ & (Hp & _) & _).
  rewrite Hd in Hd'. injection Hd' as <- <-.
  unfold broadcast. unfold bind at 1. rewrite Hd.
  unfold bind at 1, gets at 1. rewrite Hp. unfold bind at 1.
  by destruct (map_tasks _ _ w0) as [[rs | e] w1].
Qed.

Lemma appends_target P message ctx name :
  ctx <> VUndefined ->
  (forall e, is_stage_call e = false -> P e) ->
  (forall f, P (CallMiddleware f message ctx)) ->
  (forall f, P (CallHandler f message ctx)) ->
  appends P (target E message ctx name).
Proof.
  intros Hctx HP Hm Hh. apply appends_try_catch; [by apply appends_send |].
  intros error. apply appends_bind; [by apply appends_log_error, HP |].
  intros _. apply appends_bind; [apply appends_get_message |].
  intros text. apply appends_alloc.
Qed.

Lemma promise_all_length rs vs :
  promise_all rs = Returned vs -> length vs = length rs.
Proof.
  revert vs. induction rs as [|[v | e] rs IH]; intros vs; simpl.
  - by intros [= <-].
  - destruct (promise_all rs) as [vs' | e]; [| done].
    intros [= <-]. simpl. by rewrite (IH vs').
  - done.
Qed.

Lemma promise_all_thrown rs e :
  promise_all rs = Thrown e -> Thrown e ∈ rs.
Proof.
  induction rs as [|[v | e'] rs IH]; simpl; [done | |].
  - destruct (promise_all rs) as [vs' | e'']; [done |].
    intros [= ->]. right. by apply IH.
  - intros [= ->]. by left.
Qed.

(** What the [catch] of a target makes of the outcome of its [send]:
    a response is kept; a failure is reported, and unless it is
    [undefined] or [null] the slot is a new object [{error}] with its
    message. *)
Lemma target_outcome message ctx name w :
  sink_returns E ->
  match send E name message ctx w with
  | (Returned v, w1) => target E message ctx name w = (Returned v, w1)
  | (Thrown error, w1) =>
      exists w2,
        trace w2 = trace w1 ++ [LogError [broadcast_error_text E name; error]] /\
        match (get_message error w2).1 with
        | Returned text =>
            target E message ctx name w =
            (Returned (VRef (length (heap w2))),
             set_heap (heap w2 ++ [{[ "error" := text ]}]) w2)
        | Thrown e =>
            target E message ctx name w = (Thrown e, w2) /\
            nullish_type_error e /\
            (error = VUndefined \/ error = VNull)
        end
  end.
Proof.
  intros Hsink. unfold target, try_catch.
  destruct (send E name message ctx w) as [[v | error] w1]; [done |].
  destruct (Hsink [broadcast_error_text E name; error] (heap w1))
    as (v & h & Hlog).
  set (w2 := set_heap h
               (add_event (LogError [broadcast_error_text E name; error]) w1)).
  assert (log_error E [broadcast_error_text E name; error] w1 = (Returned v, w2))
    as Hrun.
  { rewrite log_error_run. simpl. by rewrite Hlog. }
  exists w2. split; [done |].
  unfold bind. rewrite Hrun.
  destruct error; simpl; try done.
  - split; [done |]. split; [by left | by left].
  - split; [done |]. split; [by right | by right].
Qed.

Lemma target_settles message ctx name w :
  sink_returns E ->
  match (target E message ctx name w).1 with
  | Returned _ => True
  | Thrown e => nullish_type_error e
  end.
Proof.
  intros Hsink. pose proof (target_outcome message ctx name w Hsink) as H.
  destruct (send E name message ctx w) as [[v | error] w1]; [by rewrite H |].
  destruct H as (w2 & _ & H).
  destruct (get_message error w2).1; [by rewrite H |].
  destruct H as (-> & ? & _). done.
Qed.

Lemma map_tasks_settle message ctx names w rs :
  sink_returns E ->
  (map_tasks (target E message ctx) names w).1 = Returned rs ->
  forall e, Thrown e ∈ rs -> nullish_type_error e.
Proof.
  intros Hsink. revert w rs.
  induction names as [|name names IH]; intros w rs; simpl.
  - intros [= <-] e He. by apply elem_of_nil in He.
  - unfold bind at 1, settle.
    pose proof (target_settles message ctx name w Hsink) as Hr.
    destruct (target E message ctx name w) as [r w1]; simpl in Hr.
    unfold bind at 1. specialize (IH w1).
    destruct (map_tasks _ names w1) as [[rs' | e'] w2]; simpl in *; [| done].
    intros [= <-] e [He | He]%elem_of_cons.
    + by subst r.
    + by eapply IH.
Qed.

(** With a logger that returns normally, [broadcast] has one slot per
    plugin, and can fail in one way only: a target failed with
    [undefined] or [null], and reading its [message] threw. *)
Lemma broadcast_outcome message context w :
  sink_returns E ->
  match (broadcast E message context w).1 with
  | Returned slots => length slots = length (plugins w)
  | Thrown e => nullish_type_error e
  end.
Proof.
  intros Hsink.
  destruct (default_param_inv context w) as (ctx & w0 & Hd & _).
  rewrite (broadcast_run message context w ctx w0 Hd).
  destruct (map_tasks_returns (target E message ctx) (JsMap.keys (plugins w)) w0)
    as (rs & Hrs & Hlen).
  pose proof (map_tasks_settle message ctx (JsMap.keys (plugins w)) w0 rs
                Hsink Hrs) as Hall.
  destruct (map_tasks _ _ w0) as [rs' w1]; simpl in *. subst rs'.
  destruct (promise_all rs) as [slots | e] eqn:Hpa; simpl.
  - apply promise_all_length in Hpa. rewrite Hpa, Hlen.
    unfold JsMap.keys. by rewrite length_fmap.
  - by apply Hall, promise_all_thrown.
Qed.
End Broadcast.

(** ** The invariant of the bridge *)

Section Invariant.
Context (E : Env).
Implicit Types (w : World).

Lemma set_absent {V} (m : list (value * V)) k v :
  k ∉ m.*1 -> JsMap.set m k v = m ++ [(k, v)].
Proof.
  induction m as [|[k' v'] m IH]; [done |].
  rewrite fmap_cons, not_elem_of_cons. intros [Hne Hm]. simpl.
  rewrite decide_False by done. by rewrite IH.
Qed.

Lemma keys_set_present {V} (m : list (value * V)) k v :
  k ∈ m.*1 -> (JsMap.set m k v).*1 = m.*1.
Proof.
  induction m as [|[k' v'] m IH]; simpl; [by intros ?%elem_of_nil |].
  case_decide; subst; [done |].
  intros [? | Hin]%elem_of_cons; [done |]. rewrite !fmap_cons. f_equal. by apply IH.
Qed.

Lemma nodup_keys_set {V} (m : list (value * V)) k v :
  NoDup m.*1 -> NoDup (JsMap.set m k v).*1.
Proof.
  intros Hm. destruct (decide (k ∈ m.*1)) as [Hin | Hout].
  - by rewrite keys_set_present.
  - rewrite set_absent, fmap_app by done. apply NoDup_app.
    split_and!; [done | | apply NoDup_singleton].
    intros x Hx ->%list_elem_of_singleton. done.
Qed.

Lemma nodup_keys_filter {V} (P : value * V -> Prop) `{forall p, Decision (P p)}
    (m : list (value * V)) :
  NoDup m.*1 -> NoDup (filter P m).*1.
Proof.
  induction m as [|[k v] m IH]; [done |].
  rewrite fmap_cons, NoDup_cons. intros [Hk Hm].
  rewrite filter_cons. case_decide; [| by apply IH].
  rewrite fmap_cons, NoDup_cons. split; [| by apply IH].
  intros ([k' v'] & Heq & [_ Hin]%list_elem_of_filter)%list_elem_of_fmap.
  simpl in Heq. subst k'.
  apply Hk. apply list_elem_of_fmap. by exists (k, v').
Qed.

(** A registration fails and leaves the world alone, or its arguments
    are valid and the name is new. *)
Lemma registerPlugin_cases name handler w :
  (registerPlugin E name handler w).2 = w \/
  exists s f, name = VStr s /\ handler = VFun f /\ s <> EmptyString /\
              JsMap.has (plugins w) name = false.
Proof.
  unfold registerPlugin.
  destruct (negb (truthy name) || negb (String.eqb (typeof name) "string"))
    eqn:Hname; [by left |].
  destruct (negb (String.eqb (typeof handler) "function"))
    eqn:Hhandler; [by left |].
  apply name_check in Hname as (s & -> & Hs).
  apply handler_check in Hhandler as [f ->].
  unfold bind at 1, gets at 1.
  destruct (JsMap.has (plugins w) (VStr s)) eqn:Hhas; [by left |].
  right. by exists s, f.
Qed.

(** The fields after [registerPlugin]: as before, or one entry more. *)
Lemma registerPlugin_fields name handler w :
  let w' := (registerPlugin E name handler w).2 in
  middlewares w' = middlewares w /\ listeners w' = listeners w /\
  (plugins w' = plugins w \/
   (nonempty_string name /\ invocable handler /\ (name ∉ (plugins w).*1) /\
    plugins w' = plugins w ++ [(name, handler)])).
Proof.
  intros w'. unfold w'.
  destruct (registerPlugin_cases name handler w)
    as [-> | (s & f & -> & -> & Hs & Hhas)].
  { split; [done |]. split; [done |]. by left. }
  rewrite (registerPlugin_run E s f w Hs Hhas).
  apply JsMapFacts.has_false in Hhas.
  set (w1 := set_heap _ _).
  destruct (appends_emit E (fun _ => True) (VStr "plugin:registered")
              (VRef (length (heap w))) (fun _ _ => I) w1)
    as [(Hp & Hm & Hl) _].
  assert (plugins w1 = plugins w ++ [(VStr s, VFun f)]) as Hw1.
  { simpl. by apply set_absent. }
  destruct (emit E _ _ w1) as [[[] | e] w2]; simpl in *;
    rewrite Hp, Hm, Hl; (split; [done |]); (split; [done |]); right;
    (split; [by exists s |]); (split; [by exists f |]); by split.
Qed.

Lemma unregisterPlugin_fields name w :
  let w' := (unregisterPlugin E name w).2 in
  middlewares w' = middlewares w /\ listeners w' = listeners w /\
  plugins w' = filter (fun p => p.1 <> name) (plugins w).
Proof.
  intros w'. unfold w'. rewrite unregisterPlugin_run.
  destruct (JsMap.has (plugins w) name); [| done].
  match goal with |- context [emit E ?ev ?p ?w1] =>
    destruct (appends_emit E (fun _ => True) ev p (fun _ _ => I) w1)
      as [(Hp & Hm & Hl) _];
    destruct (emit E ev p w1) as [[[] | e] w2]
  end; simpl in *; by rewrite Hp, Hm, Hl.
Qed.

Lemma send_same_bridge name message context w :
  same_bridge w (send E name message context w).2.
Proof.
  destruct (default_param_inv context w) as (ctx & w0 & Hd & _).
  apply (send_trace E (fun _ => True) name message context w ctx w0 Hd); [done |].
  by apply appends_compose.
Qed.

Lemma broadcast_same_bridge message context w :
  same_bridge w (broadcast E message context w).2.
Proof.
  destruct (default_param_inv context w) as (ctx & w0 & Hd & Hctx & Hb & _).
  rewrite (broadcast_run E message context w ctx w0 Hd).
  destruct (appends_map_tasks (fun _ => True) (target E message ctx)
              (JsMap.keys (plugins w))) with (w := w0) as [Hb' _].
  { intros name. by apply appends_target. }
  destruct (map_tasks _ _ w0) as [[rs | e] w1]; simpl in *;
    by eapply same_bridge_trans.
Qed.

Lemma well_formed_same_bridge w w' :
  same_bridge w w' -> well_formed w -> well_formed w'.
Proof.
  intros (Hp & Hm & Hl) (? & ? & ? & ? & Hs). unfold well_formed, listener_sets_nodup.
  rewrite Hp, Hm, Hl. by split_and!.
Qed.

(** Every reachable world is well formed. *)
Lemma reachable_well_formed w : reachable E w -> well_formed w.
Proof.
  induction 1 as [h | w h _ IH | w name handler _ IH | w name _ IH
                 | w middleware _ IH | w name message context _ IH
                 | w message context _ IH | w event callback _ IH
                 | w event callback _ IH].
  - split_and!; try constructor. intros event s [=].
  - by apply (well_formed_same_bridge w).
  - destruct IH as (Hk & Hp & Hm & Hlk & Hs).
    destruct (registerPlugin_fields name handler w) as (Em & El & Ep).
    unfold well_formed, listener_sets_nodup. rewrite Em, El.
    destruct Ep as [Ep | (Hn & Hh & Hout & Ep)]; rewrite Ep; [by split_and! |].
    split_and!; try done.
    + rewrite fmap_app. apply NoDup_app.
      split_and!; [done | | apply NoDup_singleton].
      intros x Hx ->%list_elem_of_singleton. done.
    + apply Forall_app. split; [done |]. by constructor.
  - destruct IH as (Hk & Hp & Hm & Hlk & Hs).
    destruct (unregisterPlugin_fields name w) as (Em & El & Ep).
    unfold well_formed, listener_sets_nodup. rewrite Em, El, Ep.
    split_and!; try done; [by apply nodup_keys_filter |].
    rewrite Forall_forall in *. intros p [_ Hin]%list_elem_of_filter. by apply Hp.
  - destruct IH as (Hk & Hp & Hm & Hlk & Hs). unfold use.
    destruct (negb (String.eqb (typeof middleware) "function")) eqn:Hf;
      [by split_and! |].
    apply handler_check in Hf. split_and!; try done. simpl.
    apply Forall_app. split; [done |]. by constructor.
  - apply (well_formed_same_bridge w); [apply send_same_bridge | done].
  - apply (well_formed_same_bridge w); [apply broadcast_same_bridge | done].
  - pose proof (nodup_on event callback w) as Hon.
    destruct IH as (Hk & Hp & Hm & Hlk & Hs).
    rewrite on_run in *. simpl in *.
    split_and!; try done; [by apply nodup_keys_set | by apply Hon].
  - pose proof (nodup_off event callback w) as Hoff.
    destruct IH as (Hk & Hp & Hm & Hlk & Hs).
    rewrite off_run in *. simpl in *.
    destruct (JsMap.get (listeners w) event) as [s |]; [| by split_and!].
    split_and!; try done; [by apply nodup_keys_set | by apply Hoff].
Qed.
End Invariant.

(** ** The answer of a dispatch *)

Section Answer.
Context (E : Env).
Implicit Types (w : World) (name message context : value).

Lemma stage_calls_none d :
  Forall (fun e => is_stage_call e = false) d -> stage_calls d = [].
Proof.
  induction 1 as [|e d He _ IH]; [done |].
  unfold stage_calls in *. rewrite filter_cons. by rewrite He.
Qed.

Lemma stage_calls_app d d' : stage_calls (d ++ d') = stage_calls d ++ stage_calls d'.
Proof. apply filter_app. Qed.

(** [send] from the outcome of its pipeline. *)
Lemma send_with_pipeline name message context w ctx w0 r w1 :
  JsMap.has (plugins w) name = true ->
  default_param context w = (Returned ctx, w0) ->
  compose E (middlewares w)
    (default VUndefined (JsMap.get (plugins w) name)) message ctx [] w0 = (r, w1) ->
  match r with
  | Thrown e => send E name message context w = (Thrown e, w1)
  | Returned response =>
      exists r' w2 d,
        send E name message context w = (r', w2) /\
        trace w2 = trace w1 ++
          Emit (VStr "plugin:message") (VRef (length (heap w1)))
            (Some {[ "name" := name; "message" := message;
                     "response" := response ]}) :: d /\
        Forall is_report d /\
        same_bridge w1 w2 /\
        (forall v, r' = Returned v -> v = response) /\
        (sink_returns E -> r' = Returned response)
  end.
Proof.
  intros Hhas Hd Hpipe.
  rewrite (send_run E name message context w ctx w0 Hd), Hhas, Hpipe.
  destruct r as [response | e]; [| done].
  set (o := {[ "name" := name; "message" := message; "response" := response ]}).
  set (w2 := set_heap (heap w1 ++ [o]) w1).
  destruct (emit_spec E (VStr "plugin:message") (VRef (length (heap w1))) w2)
    as (outs & _ & Ht & Hsb & Hsink).
  assert (deref (heap w2) (VRef (length (heap w1))) = Some o) as Hderef.
  { simpl. rewrite lookup_app_r by done. by rewrite Nat.sub_diag. }
  rewrite Hderef in Ht.
  destruct (emit E _ _ w2) as [[[] | e] w3]; simpl in *; eexists _, w3, _.
  - split_and!; [done | exact Ht | apply reports_are_reports | done | | done].
    by intros v [= <-].
  - split_and!; [done | exact Ht | apply reports_are_reports | done | done |].
    intros Hs. by destruct (Hsink Hs).
Qed.

(** [send] when the pipeline is the handler alone. *)
Lemma send_handler_alone name message context w ctx w0 f :
  middlewares w = [] ->
  JsMap.get (plugins w) name = Some (VFun f) ->
  default_param context w = (Returned ctx, w0) ->
  same_bridge w (send E name message context w).2 /\
  (sink_returns E ->
   (send E name message context w).1 = (handler_sem E f message ctx (heap w0)).1) /\
  exists d,
    trace (send E name message context w).2 =
      trace w ++ CallHandler f message ctx :: d /\
    Forall (fun e => is_stage_call e = false) d.
Proof.
  intros Hmw Hget Hd.
  assert (JsMap.has (plugins w) name = true) as Hhas.
  { apply JsMapFacts.has_get. by rewrite Hget. }
  destruct (default_param_inv context w) as (c & w' & Hd' & _ & Hb0 & Ht0 & _).
  rewrite Hd in Hd'. injection Hd' as <- <-.
  split; [apply send_same_bridge |].
  destruct (compose E (middlewares w)
              (default VUndefined (JsMap.get (plugins w) name)) message ctx [] w0)
    as [r w1] eqn:Hpipe.
  pose proof (send_with_pipeline name message context w ctx w0 r w1 Hhas Hd Hpipe)
    as Hsend.
  rewrite Hmw, Hget in Hpipe. simpl in Hpipe. rewrite compose_nil in Hpipe.
  unfold call_handler, bind, tell, modify, lift_action in Hpipe. simpl in Hpipe.
  destruct (handler_sem E f message ctx (heap w0)) as [r0 h].
  assert (r0 = r /\ w1 = set_heap h (add_event (CallHandler f message ctx) w0))
    as [-> ->].
  { by injection Hpipe as <- <-. }
  simpl in *. destruct r as [response | error].
  - destruct Hsend as (r' & w2 & d & -> & Ht & Hd' & _ & _ & Hr). simpl.
    split; [done |]. eexists. rewrite Ht, Ht0, <- app_assoc. split; [done |].
    constructor; [done |]. eapply Forall_impl; [exact Hd' |]. by intros [].
  - rewrite Hsend. simpl. split; [done |]. exists []. by rewrite Ht0.
Qed.

Lemma target_calls_its_handler message ctx name f w :
  ctx <> VUndefined ->
  middlewares w = [] ->
  JsMap.get (plugins w) name = Some (VFun f) ->
  same_bridge w (target E message ctx name w).2 /\
  exists d,
    trace (target E message ctx name w).2 = trace w ++ d /\
    stage_calls d = [CallHandler f message ctx].
Proof.
  intros Hctx Hmw Hget.
  assert (default_param ctx w = (Returned ctx, w)) as Hd.
  { by rewrite default_param_kept. }
  destruct (send_handler_alone name message ctx w ctx w f Hmw Hget Hd)
    as (Hsb & _ & d & Ht & Hd').
  assert (stage_calls (CallHandler f message ctx :: d) = [CallHandler f message ctx])
    as Hcalls.
  { change (stage_calls (?e :: ?l)) with (e :: stage_calls l).
    by rewrite stage_calls_none. }
  unfold target, try_catch.
  destruct (send E name message ctx w) as [[v | error] w1]; simpl in *.
  { split; [done |]. by eexists. }
  destruct (appends_bind (fun e => is_stage_call e = false)
              (log_error E [broadcast_error_text E name; error])
              (fun _ => text <- get_message error ;; alloc {[ "error" := text ]}))
    with (w := w1) as [Hsb' (d' & Ht' & Hd'')].
  { by apply appends_log_error. }
  { intros _. apply appends_bind; [apply appends_get_message |].
    intros text. apply appends_alloc. }
  split; [by eapply same_bridge_trans |].
  exists ((CallHandler f message ctx :: d) ++ d').
  rewrite Ht', Ht, <- app_assoc. split; [done |].
  by rewrite stage_calls_app, Hcalls, (stage_calls_none d').
Qed.

Lemma map_tasks_cons (task : value -> M value) name names w :
  map_tasks task (name :: names) w =
  let (r, w1) := task name w in
  match map_tasks task names w1 with
  | (Returned rs, w2) => (Returned (r :: rs), w2)
  | (Thrown e, w2) => (Thrown e, w2)
  end.
Proof.
  simpl. unfold bind at 1, settle. destruct (task name w) as [r w1].
  unfold bind at 1. by destruct (map_tasks task names w1) as [[rs | e] w2].
Qed.

Lemma owed_call_same_bridge w w' message ctx name :
  same_bridge w w' -> owed_call w' message ctx name = owed_call w message ctx name.
Proof. intros (Hp & _). unfold owed_call. by rewrite Hp. Qed.

Lemma map_tasks_call_in_order message ctx names w :
  ctx <> VUndefined ->
  middlewares w = [] ->
  (forall name, name ∈ names ->
     exists f, JsMap.get (plugins w) name = Some (VFun f)) ->
  same_bridge w (map_tasks (target E message ctx) names w).2 /\
  exists d,
    trace (map_tasks (target E message ctx) names w).2 = trace w ++ d /\
    stage_calls d = omap (owed_call w message ctx) names.
Proof.
  intros Hctx. revert w. induction names as [|name names IH]; intros w Hmw Hall.
  { split; [apply same_bridge_refl |]. exists []. by rewrite app_nil_r. }
  destruct (Hall name ltac:(by left)) as [f Hget].
  destruct (target_calls_its_handler message ctx name f w Hctx Hmw Hget)
    as [Hsb (d & Ht & Hd)].
  rewrite map_tasks_cons.
  destruct (target E message ctx name w) as [r w1]; simpl in *.
  destruct Hsb as (Hp & Hm & Hl).
  destruct (IH w1) as [Hsb' (d' & Ht' & Hd')].
  { by rewrite Hm. }
  { intros n Hn. rewrite Hp. apply Hall. by right. }
  unfold owed_call in Hd'. rewrite Hp in Hd'. fold (owed_call w message ctx) in Hd'.
  destruct (map_tasks (target E message ctx) names w1) as [rs' w2]; simpl in *.
  assert (same_bridge w w2) as Hsb2.
  { eapply same_bridge_trans; [| exact Hsb']. by repeat split. }
  assert (trace w2 = trace w ++ d ++ d') as Ht2.
  { by rewrite Ht', Ht, app_assoc. }
  assert (stage_calls (d ++ d') = omap (owed_call w message ctx) (name :: names))
    as Hcalls.
  { rewrite stage_calls_app, Hd, Hd'. simpl. unfold owed_call at 2.
    by rewrite Hget. }
  destruct rs' as [rs | e]; simpl; (split; [done |]); by exists (d ++ d').
Qed.
End Answer.

Section AnswerFacts.
Context (E : Env).
Implicit Types (w : World) (name message context : value).

Lemma get_elem {V} (m : list (value * V)) k v :
  JsMap.get m k = Some v -> (k, v) ∈ m.
Proof.
  induction m as [|[k' v'] m IH]; simpl; [done |].
  case_decide; subst.
  - intros [= ->]. by left.
  - intros Hg. right. by apply IH.
Qed.

Lemma invocable_all ms : Forall invocable ms -> exists fs, ms = VFun <$> fs.
Proof.
  induction 1 as [|m ms [f ->] _ [fs ->]]; [by exists [] |].
  by exists (f :: fs).
Qed.

(** The pipeline when its first stage settles without calling [next]. *)
Lemma compose_skips m after handler message ctx r h w :
  middleware_sem E m message ctx (heap w) = MwReturn r h ->
  compose E (VFun m :: after) handler message ctx [] w =
  (r, set_heap h (add_event (CallMiddleware m message ctx) w)).
Proof.
  intros Hsem. rewrite compose_cons.
  unfold call_middleware, bind, tell, modify. simpl. by rewrite Hsem.
Qed.

(** The pipeline of one middleware that calls [next] once. *)
Lemma compose_wraps m f message ctx args h k r0 h1 r h2 w :
  middleware_sem E m message ctx (heap w) = MwNext args h k ->
  handler_sem E f message ctx h = (r0, h1) ->
  k r0 h1 = MwReturn r h2 ->
  compose E [VFun m] (VFun f) message ctx [] w =
  (r, set_heap h2
        (add_event (CallHandler f message ctx)
           (set_heap h (add_event (CallMiddleware m message ctx) w)))).
Proof.
  intros Hsem Hh Hk. rewrite compose_cons, compose_nil.
  unfold call_middleware, bind at 1, tell, modify. simpl. rewrite Hsem. simpl.
  unfold bind, tell, modify, lift_action. simpl. rewrite Hh. simpl.
  by rewrite Hk.
Qed.
End AnswerFacts.

Section HandlerOrder.
Implicit Types (w : World) (m : list (value * value)).


End HandlerOrder.

(** ** An emission on the heap *)

Section EmissionRuns.
Context (E : Env).
Implicit Types (w : World) (event payload : value).

Lemma call_listener_outcome callback payload w :
  call_listener E callback payload w =
  let (r, h) := listener_outcome E payload callback (heap w) in (r, set_heap h w).
Proof. destruct callback; simpl; by destruct w. Qed.





End EmissionRuns.

(** ** The targets of a broadcast *)

Section Targets.
Context (E : Env).
Implicit Types (w : World) (name message context : value).



End Targets.

(** ** The live set *)

Section LiveFacts.
Implicit Types (s : list (option value)) (x y : value) (w : Live.World).






Lemma live_set_sets_same w : Live.set_sets (Live.sets w) w = w.
Proof. by destruct w. Qed.












End LiveFacts.

Section LiveEmission.
Context (E : Env) (calls_of : fid -> value -> list obj -> list Live.call).
Implicit Types (w : Live.World) (event payload : value).





Lemma live_call_listener_run callback payload w :
  Live.call_listener E calls_of callback payload w =
  let (r, h) := listener_outcome E payload callback (Live.heap w) in
  (r, foldl (fun w' c => Live.perform c w') (Live.set_heap h w)
        (Live.calls calls_of payload callback (Live.heap w))).
Proof. destruct callback; simpl; by destruct w. Qed.

(** *** The loop over the list of the set's values

    In an emission in which no listener calls [on] or [off], the loop
    over the live set and the loop of [emit] over the values of the set
    leave the same entries and the same heap, and end the same way; as
    many steps as the set has entries, and one more, are enough. *)

Lemma live_get_listeners w event :
  JsMap.get (Live.listeners_of w) event
  = Live.members <$> JsMap.get (Live.sets w) event.
Proof.
  unfold Live.listeners_of.
  induction (Live.sets w) as [|[k s] m IH]; simpl; [done |].
  by case_decide.
Qed.

Lemma live_visit_agrees fuel index event payload w (mw : World) :
  heap mw = Live.heap w ->
  Live.no_call E calls_of event payload
    (Live.members (drop index (default [] (JsMap.get (Live.sets w) event))))
    (Live.heap w) ->
  length (default [] (JsMap.get (Live.sets w) event)) <= fuel + index ->
  let callbacks :=
    Live.members (drop index (default [] (JsMap.get (Live.sets w) event))) in
  let looped := for_each callbacks (notify E event payload) mw in
  exists w' d,
    Live.visit E calls_of (S fuel) index event payload w = Some (looped.1, w') /\
    Live.heap w' = heap looped.2 /\
    Live.trace w' = Live.trace w ++ d /\
    trace looped.2 = trace mw ++ d /\
    Live.made w' = Live.made w /\
    Live.sets w' = Live.sets w.
Proof.
  revert index w mw. induction fuel as [|fuel IH]; intros index w mw Hh Hq Hlen.
  - simpl in Hlen. pose proof Hlen as Hnone. apply lookup_ge_None in Hnone.
    cbv zeta. rewrite drop_ge by done. simpl. rewrite Hnone.
    exists w, []. by rewrite !app_nil_r.
  - change (Live.visit E calls_of (S (S fuel)) index event payload w)
      with (match default [] (JsMap.get (Live.sets w) event) !! index with
            | None => Some (Returned tt, w)
            | Some None => Live.visit E calls_of (S fuel) (S index) event payload w
            | Some (Some callback) =>
                let (r, w1) := Live.call_listener E calls_of callback payload w in
                let w2 := Live.add_event (CallListener callback payload r) w1 in
                match r with
                | Returned _ =>
                    Live.visit E calls_of (S fuel) (S index) event payload w2
                | Thrown error =>
                    match Live.log_error E [listener_error_text E event; error] w2
                    with
                    | (Returned _, w3) =>
                        Live.visit E calls_of (S fuel) (S index) event payload w3
                    | (Thrown e, w3) => Some (Thrown e, w3)
                    end
                end
            end).
    set (s := default [] (JsMap.get (Live.sets w) event)) in *.
    destruct (s !! index) as [[c |] |] eqn:Hlook.
    + cbv zeta. rewrite (drop_S _ _ _ Hlook) in Hq |- *.
      assert (Live.members (Some c :: drop (S index) s)
              = c :: Live.members (drop (S index) s)) as Hm by done.
      rewrite Hm in Hq |- *.
      rewrite for_each_cons, notify_run, call_listener_outcome.
      rewrite live_call_listener_run, Hh.
      inversion Hq as [| c' cs h v h1 Hcalls Hout Hrest
                       | c' cs h e h1 v h2 Hcalls Hout Hlog Hrest
                       | c' cs h e h1 e' h2 Hcalls Hout Hlog]; subst;
        rewrite Hcalls, Hout; cbv beta iota zeta; simpl foldl.
      * destruct (IH (S index)
                    (Live.add_event (CallListener c payload (Returned v))
                       (Live.set_heap h1 w))
                    (add_event (CallListener c payload (Returned v))
                       (set_heap h1 mw)))
          as (w' & d & Hv & Hheap & Ht & Ht' & Hmade & Hsets);
          [done | done | simpl; fold s; lia |].
        simpl in Hv, Hheap, Ht, Ht', Hmade, Hsets. fold s in Hv, Hheap, Ht'.
        exists w', (CallListener c payload (Returned v) :: d).
        split_and!; try done; [by rewrite Ht, <- app_assoc |].
        by rewrite Ht', <- app_assoc.
      * rewrite log_error_run. unfold Live.log_error. simpl. rewrite Hlog.
        cbv beta iota zeta.
        destruct (IH (S index)
                    (Live.set_heap h2
                       (Live.add_event
                          (LogError [listener_error_text E event; e])
                          (Live.add_event (CallListener c payload (Thrown e))
                             (Live.set_heap h1 w))))
                    (set_heap h2
                       (add_event
                          (LogError [listener_error_text E event; e])
                          (add_event (CallListener c payload (Thrown e))
                             (set_heap h1 mw)))))
          as (w' & d & Hv & Hheap & Ht & Ht' & Hmade & Hsets);
          [done | done | simpl; fold s; lia |].
        simpl in Hv, Hheap, Ht, Ht', Hmade, Hsets. fold s in Hv, Hheap, Ht'.
        exists w', (CallListener c payload (Thrown e)
                    :: LogError [listener_error_text E event; e] :: d).
        split_and!; try done; [by rewrite Ht, <- !app_assoc |].
        by rewrite Ht', <- !app_assoc.
      * rewrite log_error_run. unfold Live.log_error. simpl. rewrite Hlog.
        cbv beta iota zeta.
        eexists _, [CallListener c payload (Thrown e);
                    LogError [listener_error_text E event; e]].
        split_and!; try done; simpl; by rewrite <- !app_assoc.
    + cbv zeta. rewrite (drop_S _ _ _ Hlook) in Hq |- *.
      assert (Live.members (None :: drop (S index) s)
              = Live.members (drop (S index) s)) as Hm by done.
      rewrite Hm in Hq |- *.
      destruct (IH (S index) w mw)
        as (w' & d & Hv & Hheap & Ht & Ht' & Hmade & Hsets);
        [done | done | fold s; lia |].
      fold s in Hv, Hheap, Ht'. by exists w', d.
    + cbv zeta. apply lookup_ge_None in Hlook. rewrite drop_ge by done. simpl.
      exists w, []. by rewrite !app_nil_r.
Qed.

Lemma live_emit_agrees event payload w (mw : World) :
  listeners mw = Live.listeners_of w ->
  heap mw = Live.heap w ->
  Live.no_call E calls_of event payload (Live.subscribers w event) (Live.heap w) ->
  exists w' d,
    Live.emit E calls_of
      (S (length (default [] (JsMap.get (Live.sets w) event)))) event payload w
      = Some ((emit E event payload mw).1, w') /\
    Live.heap w' = heap (emit E event payload mw).2 /\
    Live.trace w' = Live.trace w ++ d /\
    trace (emit E event payload mw).2 = trace mw ++ d /\
    Live.made w' = Live.made w /\
    Live.sets w' = Live.sets w.
Proof.
  intros Hl Hh Hq. rewrite emit_run, Hl, live_get_listeners. unfold Live.emit.
  rewrite Hh. cbv zeta. unfold Live.subscribers in Hq.
  set (w1 := Live.add_event (Emit event payload (deref (Live.heap w) payload)) w).
  set (mw1 := add_event (Emit event payload (deref (Live.heap w) payload)) mw).
  destruct (JsMap.has (Live.sets w) event) eqn:Hhas.
  - apply JsMapFacts.has_get in Hhas as [s Hs].
    destruct (live_visit_agrees (length s) 0 event payload w1 mw1)
      as (w' & d & Hv & Hheap & Ht & Ht' & Hmade & Hsets).
    { done. }
    { change (Live.sets w1) with (Live.sets w). by rewrite drop_0. }
    { change (Live.sets w1) with (Live.sets w). rewrite Hs. simpl. lia. }
    change (Live.sets w1) with (Live.sets w) in Hv, Hheap, Ht', Hsets.
    rewrite Hs in *.
    change (default [] (Some s)) with s in *. rewrite drop_0 in *.
    change (Live.members <$> Some s) with (Some (Live.members s)).
    exists w', (Emit event payload (deref (Live.heap w) payload) :: d).
    split_and!; try done.
    + rewrite Ht. unfold w1. simpl. by rewrite <- app_assoc.
    + rewrite Ht'. unfold mw1. simpl. by rewrite <- app_assoc.
  - apply JsMapFacts.has_false, JsMapFacts.get_None in Hhas. rewrite Hhas.
    by eexists _, [_].
Qed.

End LiveEmission.

(** * The claims *)



(** C2.  The isolation of [broadcast] misses one case.  A failure of a
    target is caught and reported, and the slot is to be [{error}] with
    [error.message]; but when the target fails with [undefined] (a
    promise rejected with no reason), reading [message] throws inside
    the [catch], the task fails, and the whole [broadcast] fails with
    that [TypeError].  For the bridge whose one plugin rejects with no
    reason: the handler is called, the failure is reported, and
    [broadcast] is rejected. *)
Theorem broadcast_fails_on_rejection_without_reason :
  let w := Sample.rejecting in
  let w' := (broadcast Sample.env (VStr "ping") VUndefined w).2 in
  plugins w = [(VStr "C", VFun 2)] /\
  handler_sem Sample.env 2 (VStr "ping") (VRef 1) (heap w ++ [∅])
    = (Thrown VUndefined, heap w ++ [∅]) /\
  trace w' = trace w ++
    [CallHandler 2 (VStr "ping") (VRef 1);
     LogError [broadcast_error_text Sample.env (VStr "C"); VUndefined]] /\
  (broadcast Sample.env (VStr "ping") VUndefined w).1
    = Thrown (VError "Cannot read properties of undefined (reading 'message')").
Proof. intros w w'. by split_and!. Qed.

(** The case the specification gives: [A] answers ["v"], [B] fails with
    [Error("boom")]; [broadcast] returns two slots, ["v"] and a new
    object [{error: "boom"}]. *)
Example broadcast_isolates_an_error :
  let w := Sample.two_plugins in
  let r := broadcast Sample.env (VStr "ping") VUndefined w in
  r.1 = Returned [VStr "v"; VRef 4] /\
  heap r.2 !! 4 = Some {[ "error" := VStr "boom" ]}.
Proof. intros w r. by split. Qed.



(** C4.  [send] to a name that is not registered fails with the
    [UnknownPlugin] error; nothing is added to the trace (no event is
    emitted, no middleware and no handler is called) and the bridge is
    as before. *)
Theorem send_unknown_plugin E name message context w :
  JsMap.has (plugins w) name = false ->
  exists e w',
    send E name message context w = (Thrown e, w') /\
    UnknownPlugin E name e /\
    trace w' = trace w /\
    same_bridge w w'.
Proof.
  intros Hhas.
  destruct (send_not_registered E name message context w Hhas)
    as (w' & Hs & Ht & Hb).
  by exists (unknown_error E name), w'.
Qed.

Lemma send_unknown_plugin_witness :
  JsMap.has (plugins Sample.two_plugins) (VStr "Z") = false /\
  exists e w',
    send Sample.env (VStr "Z") (VStr "ping") VUndefined Sample.two_plugins
      = (Thrown e, w') /\
    UnknownPlugin Sample.env (VStr "Z") e /\
    trace w' = trace Sample.two_plugins /\
    same_bridge Sample.two_plugins w'.
Proof.
  split; [reflexivity |].
  apply (send_unknown_plugin Sample.env (VStr "Z") (VStr "ping") VUndefined
           Sample.two_plugins).
  reflexivity.
Defined.

(** C5.  [registerPlugin] fails with an [InvalidArgument] error when the
    name is not a non-empty string or the handler is not a function, and
    with the [DuplicatePlugin] error when the arguments are valid and the
    name is registered already; in each case the world is exactly as
    before.  So after a registration, a second one under the same name
    fails and the name still maps to the first handler. *)
Theorem register_rejects_without_change E name handler w :
  (~ nonempty_string name \/ ~ invocable handler ->
   exists e, registerPlugin E name handler w = (Thrown e, w) /\ InvalidArgument e) /\
  (nonempty_string name -> invocable handler ->
   JsMap.has (plugins w) name = true ->
   exists e, registerPlugin E name handler w = (Thrown e, w) /\
             DuplicatePlugin E name e) /\
  (nonempty_string name -> invocable handler ->
   JsMap.has (plugins w) name = false ->
   forall other, invocable other ->
     let w1 := (registerPlugin E name handler w).2 in
     registerPlugin E name other w1 = (Thrown (duplicate_error E name), w1) /\
     JsMap.get (plugins w1) name = Some handler).
Proof.
  assert (forall h w', nonempty_string name -> invocable h ->
            JsMap.has (plugins w') name = true ->
            registerPlugin E name h w' = (Thrown (duplicate_error E name), w'))
    as Hdup.
  { intros h w' (s & -> & Hs) [f ->] Hhas. unfold registerPlugin. simpl.
    destruct (String.eqb s EmptyString) eqn:Heq;
      [by apply String.eqb_eq in Heq |]. simpl.
    unfold bind, gets. by rewrite Hhas. }
  split; [| split].
  - intros Hbad. unfold registerPlugin.
    destruct (negb (truthy name) || negb (String.eqb (typeof name) "string"))
      eqn:Hname.
    { exists name_error. split; [done | by left]. }
    destruct (negb (String.eqb (typeof handler) "function")) eqn:Hhandler.
    { exists handler_error. split; [done | by right; left]. }
    exfalso. destruct Hbad as [Hbad | Hbad]; apply Hbad.
    + by apply name_check.
    + by apply handler_check.
  - intros Hn Hh Hhas. exists (duplicate_error E name). split; [by apply Hdup | done].
  - intros Hn Hh Hhas other Ho w1.
    assert (JsMap.get (plugins w1) name = Some handler) as Hget.
    { destruct Hn as (s & -> & Hs), Hh as [f ->]. unfold w1.
      rewrite registerPlugin_run by done.
      pose proof (appends_emit E (fun _ => True) (VStr "plugin:registered")
                    (VRef (length (heap w))) (fun _ _ => I)
                    (set_heap (heap w ++ [{[ "name" := VStr s ]}])
                       (set_plugins (JsMap.set (plugins w) (VStr s) (VFun f)) w)))
        as [(Hp & _) _].
      destruct (emit E _ _ _) as [[[] | e] w']; simpl in *;
        rewrite Hp; apply JsMapFacts.get_set_eq. }
    split; [| done]. apply Hdup; [done | done |].
    apply JsMapFacts.has_get. by rewrite Hget.
Qed.

Lemma register_rejects_without_change_witness :
  let w := Sample.two_plugins in
  (exists e, registerPlugin Sample.env (VStr EmptyString) (VFun 3) w = (Thrown e, w) /\
             InvalidArgument e) /\
  (exists e, registerPlugin Sample.env (VStr "D") (VStr "not a function") w
               = (Thrown e, w) /\
             InvalidArgument e) /\
  (exists e, registerPlugin Sample.env (VStr "A") (VFun 3) w = (Thrown e, w) /\
             DuplicatePlugin Sample.env (VStr "A") e) /\
  (let w1 := (registerPlugin Sample.env (VStr "D") (VFun 3) w).2 in
   registerPlugin Sample.env (VStr "D") (VFun 4) w1
     = (Thrown (duplicate_error Sample.env (VStr "D")), w1) /\
   JsMap.get (plugins w1) (VStr "D") = Some (VFun 3)).
Proof.
  intros w.
  assert (forall s, s <> EmptyString -> nonempty_string (VStr s)) as Hname.
  { intros s Hs. by exists s. }
  split_and!.
  - apply (register_rejects_without_change Sample.env (VStr EmptyString) (VFun 3) w).
    left. intros (s & [= <-] & Hs). by apply Hs.
  - apply (register_rejects_without_change Sample.env (VStr "D")
             (VStr "not a function") w).
    right. intros [f [=]].
  - apply (register_rejects_without_change Sample.env (VStr "A") (VFun 3) w);
      [by apply Hname | by exists 3 | reflexivity].
  - apply (register_rejects_without_change Sample.env (VStr "D") (VFun 3) w);
      [by apply Hname | by exists 3 | reflexivity | by exists 4].
Defined.

(** C6, as the code has it.  A stage of the pipeline takes no
    parameter: whatever a middleware passes to [next] is dropped.  Every
    middleware and the handler are called with the message and the
    context of [send] itself (the context after its default).  What a
    middleware can hand on is the heap: the next stage runs on the heap
    as the middleware left it when it called [next], so a change made
    inside the message or context object is seen downstream. *)
Theorem stages_receive_the_arguments_of_send E name message context w ctx w0 :
  default_param context w = (Returned ctx, w0) ->
  (forall mws handler args,
     compose E mws handler message ctx args = compose E mws handler message ctx []) /\
  (exists d,
     trace (send E name message context w).2 = trace w ++ d /\
     Forall (stage_receives message ctx) d) /\
  (forall m H args h k w1,
     middleware_sem E m message ctx (heap w1) = MwNext args h k ->
     compose E [VFun m] (VFun H) message ctx [] w1 =
     let w2 := add_event (CallHandler H message ctx)
                 (set_heap h (add_event (CallMiddleware m message ctx) w1)) in
     let (r, h') := handler_sem E H message ctx h in
     run_stage (k r h') (compose E [] (VFun H) message ctx) (set_heap h' w2)).
Proof.
  intros Hd. split; [| split].
  - intros mws handler args. apply compose_args.
  - apply (send_trace E (stage_receives message ctx) name message context w ctx w0 Hd).
    + by intros [].
    + by apply appends_compose.
  - intros m H args h k w1 Hsem.
    rewrite compose_cons, compose_nil.
    unfold call_middleware, bind at 1, tell, modify. simpl. rewrite Hsem. simpl.
    unfold bind, tell, modify, lift_action. simpl.
    by destruct (handler_sem E H message ctx h).
Qed.

Lemma stages_receive_the_arguments_of_send_witness :
  let w := Sample.transforming in
  default_param (VStr "ctx") w = (Returned (VStr "ctx"), w) /\
  (forall mws handler args,
     compose Sample.env mws handler (VStr "original") (VStr "ctx") args =
     compose Sample.env mws handler (VStr "original") (VStr "ctx") []) /\
  (exists d,
     trace (send Sample.env (VStr "A") (VStr "original") (VStr "ctx") w).2
       = trace w ++ d /\
     Forall (stage_receives (VStr "original") (VStr "ctx")) d) /\
  (forall m H args h k w1,
     middleware_sem Sample.env m (VStr "original") (VStr "ctx") (heap w1)
       = MwNext args h k ->
     compose Sample.env [VFun m] (VFun H) (VStr "original") (VStr "ctx") [] w1 =
     let w2 := add_event (CallHandler H (VStr "original") (VStr "ctx"))
                 (set_heap h
                    (add_event (CallMiddleware m (VStr "original") (VStr "ctx")) w1)) in
     let (r, h') := handler_sem Sample.env H (VStr "original") (VStr "ctx") h in
     run_stage (k r h')
       (compose Sample.env [] (VFun H) (VStr "original") (VStr "ctx"))
       (set_heap h' w2)).
Proof.
  intros w. split; [reflexivity |].
  exact (stages_receive_the_arguments_of_send Sample.env (VStr "A") (VStr "original")
           (VStr "ctx") w (VStr "ctx") w eq_refl).
Defined.

(** C6 as stated fails: middleware 10 passes ["transformed"] and [1] to
    [next], and the handler is still called with the message and the
    context given to [send]. *)
Lemma transformed_arguments_do_not_reach_the_handler :
  let w := Sample.transforming in
  let w' := (send Sample.env (VStr "A") (VStr "original") (VStr "ctx") w).2 in
  middlewares w = [VFun 10] /\
  middleware_sem Sample.env 10 (VStr "original") (VStr "ctx") (heap w)
    = MwNext [VStr "transformed"; VNum 1] (heap w) (fun r h' => MwReturn r h') /\
  filter (fun e => is_stage_call e) (trace w')
    = [CallMiddleware 10 (VStr "original") (VStr "ctx");
       CallHandler 0 (VStr "original") (VStr "ctx")] /\
  CallHandler 0 (VStr "transformed") (VNum 1) ∉ trace w'.
Proof.
  intros w w'. split_and!; try reflexivity.
  intros Hin.
  assert (CallHandler 0 (VStr "transformed") (VNum 1)
            ∈ filter (fun e => is_stage_call e) (trace w')) as Hf.
  { by apply list_elem_of_filter. }
  change (filter (fun e => is_stage_call e) (trace w'))
    with [CallMiddleware 10 (VStr "original") (VStr "ctx");
          CallHandler 0 (VStr "original") (VStr "ctx")] in Hf.
  apply list_elem_of_In in Hf. simpl in Hf.
  destruct Hf as [Hf | [Hf | []]]; discriminate Hf.
Qed.




(** The emission of the witness, entry by entry: listener 20 fails, the
    failure is reported, listener 21 is called. *)
Example emit_after_a_failing_listener :
  let w := Sample.two_listeners in
  (emit Sample.env (VStr "plugin:message") VNull w).1 = Returned tt /\
  trace (emit Sample.env (VStr "plugin:message") VNull w).2 =
  trace w ++
  [Emit (VStr "plugin:message") VNull None;
   CallListener (VFun 20) VNull (Thrown (VError "listener failed"));
   LogError [listener_error_text Sample.env (VStr "plugin:message");
             VError "listener failed"];
   CallListener (VFun 21) VNull (Returned VUndefined)].
Proof. intros w. by split. Qed.








(** * Further properties *)

(** ** Registration *)

Section Registration.
Context (E : Env).
Implicit Types (w : World).

Lemma use_each_snoc ms m w :
  use_each (ms ++ [m]) w = (use m (use_each ms w)).2.
Proof. unfold use_each. by rewrite foldl_app. Qed.

Lemma use_rejects m w : ~ invocable m -> use m w = (Thrown middleware_error, w).
Proof.
  intros Hm. unfold use.
  destruct (negb (String.eqb (typeof m) "function")) eqn:Hf; [done |].
  by apply handler_check in Hf.
Qed.

Lemma filter_keeps_absent {V} (m : list (value * V)) k :
  k ∉ m.*1 -> filter (fun p => p.1 <> k) m = m.
Proof. apply (JsMapFacts.delete_absent m k). Qed.

(** A registration that passes the three checks. *)
Lemma register_success s f w :
  s <> EmptyString ->
  JsMap.has (plugins w) (VStr s) = false ->
  exists r w' outcomes,
    registerPlugin E (VStr s) (VFun f) w = (r, w') /\
    plugins w' = plugins w ++ [(VStr s, VFun f)] /\
    middlewares w' = middlewares w /\ listeners w' = listeners w /\
    trace w' = trace w ++
      Emit (VStr "plugin:registered") (VRef (length (heap w)))
        (Some {[ "name" := VStr s ]})
      :: reports E (VStr "plugin:registered") (VRef (length (heap w)))
           (zip (subscribers w (VStr "plugin:registered")) outcomes) /\
    (sink_returns E -> r = Returned VUndefined).
Proof.
  intros Hs Hhas. rewrite (registerPlugin_run E s f w Hs Hhas).
  set (w1 := set_heap _ _).
  destruct (emit_spec E (VStr "plugin:registered") (VRef (length (heap w))) w1)
    as (outs & _ & Ht & (Hp & Hm & Hl) & Hsink).
  assert (deref (heap w1) (VRef (length (heap w))) = Some {[ "name" := VStr s ]})
    as Hderef.
  { simpl. rewrite lookup_app_r by done. by rewrite Nat.sub_diag. }
  rewrite Hderef in Ht.
  assert (plugins w1 = plugins w ++ [(VStr s, VFun f)]) as Hw1.
  { simpl. apply set_absent. by apply JsMapFacts.has_false. }
  destruct (emit E _ _ w1) as [[[] | e] w'] eqn:Hemit; simpl in *;
    eexists _, w', outs; (split; [done |]);
    rewrite Hp, Hm, Hl; (split; [done |]); (split; [done |]);
    (split; [done |]); (split; [exact Ht |]); [done |].
  intros Hsr. by destruct (Hsink Hsr).
Qed.
End Registration.

(** X1.  [use] called for functions [ms], first to last, leaves the
    middleware array as it was with [ms] behind it, in the order of the
    calls, and touches nothing else; [use] of a value that is not a
    function throws and leaves the world as it is. *)
Theorem use_appends_in_call_order ms m w :
  Forall invocable ms ->
  ~ invocable m ->
  middlewares (use_each ms w) = middlewares w ++ ms /\
  plugins (use_each ms w) = plugins w /\
  listeners (use_each ms w) = listeners w /\
  heap (use_each ms w) = heap w /\
  trace (use_each ms w) = trace w /\
  use m (use_each ms w) = (Thrown middleware_error, use_each ms w).
Proof.
  intros Hms Hm. split_and!; [| | | | | by apply use_rejects].
  all: induction ms as [|m' ms IH] using rev_ind;
    [simpl; by rewrite ?app_nil_r |].
  all: apply Forall_app in Hms as [Hms [[f ->] _]%Forall_cons_1].
  all: rewrite use_each_snoc, use_run; simpl; rewrite IH by done.
  all: by rewrite ?app_assoc.
Qed.

Lemma use_appends_in_call_order_witness :
  Forall invocable [VFun 12; VFun 13] /\
  ~ invocable (VStr "not a function") /\
  middlewares (use_each [VFun 12; VFun 13] Sample.two_plugins)
    = [VFun 12; VFun 13] /\
  use (VStr "not a function") (use_each [VFun 12; VFun 13] Sample.two_plugins)
    = (Thrown middleware_error, Sample.two_stages).
Proof.
  assert (Forall invocable [VFun 12; VFun 13]) as Hms.
  { repeat constructor; by eexists. }
  assert (~ invocable (VStr "not a function")) as Hm.
  { intros [f [=]]. }
  split; [exact Hms |]. split; [exact Hm |].
  pose proof (use_appends_in_call_order [VFun 12; VFun 13] (VStr "not a function")
                Sample.two_plugins Hms Hm) as (Hmw & _ & _ & _ & _ & Huse).
  split; [exact Hmw | exact Huse].
Defined.



(** X3.  Unregistering a plugin that was just registered under a new
    name gives back the plugin map there was before the registration,
    entries and order. *)
Theorem unregister_undoes_register E s f w :
  s <> EmptyString ->
  JsMap.has (plugins w) (VStr s) = false ->
  let registered := (registerPlugin E (VStr s) (VFun f) w).2 in
  JsMap.has (plugins registered) (VStr s) = true /\
  plugins (unregisterPlugin E (VStr s) registered).2 = plugins w.
Proof.
  intros Hs Hhas registered.
  destruct (register_success E s f w Hs Hhas)
    as (r & w' & outs & Hrun & Hp & _).
  assert (registered = w') as -> by (unfold registered; by rewrite Hrun).
  split.
  - apply JsMapFacts.has_true. rewrite Hp, fmap_app, elem_of_app. right. by left.
  - destruct (unregisterPlugin_fields E (VStr s) w') as (_ & _ & ->).
    rewrite Hp, filter_app, filter_keeps_absent by by apply JsMapFacts.has_false.
    rewrite filter_cons_False, filter_nil, app_nil_r; [done |].
    simpl. by intros H.
Qed.

Lemma unregister_undoes_register_witness :
  "D" <> EmptyString /\
  JsMap.has (plugins Sample.two_plugins) (VStr "D") = false /\
  let registered := (registerPlugin Sample.env (VStr "D") (VFun 3)
                       Sample.two_plugins).2 in
  JsMap.has (plugins registered) (VStr "D") = true /\
  plugins (unregisterPlugin Sample.env (VStr "D") registered).2
    = plugins Sample.two_plugins.
Proof.
  split; [discriminate |]. split; [reflexivity |].
  apply (unregister_undoes_register Sample.env "D" 3 Sample.two_plugins);
    [discriminate | reflexivity].
Defined.

(** X4.  A name that was unregistered can be registered again: the
    registration is not a duplicate, and the plugin is then the last of
    the map, behind the plugins that stayed, which keep their order. *)
Theorem register_again_goes_last E s g w :
  s <> EmptyString ->
  JsMap.has (plugins w) (VStr s) = true ->
  let removed := (unregisterPlugin E (VStr s) w).2 in
  plugins (registerPlugin E (VStr s) (VFun g) removed).2 =
  filter (fun p => p.1 <> VStr s) (plugins w) ++ [(VStr s, VFun g)].
Proof.
  intros Hs Hhas removed.
  destruct (unregisterPlugin_fields E (VStr s) w) as (_ & _ & Hp).
  fold removed in Hp.
  assert (JsMap.has (plugins removed) (VStr s) = false) as Hgone.
  { rewrite Hp. apply JsMapFacts.has_false.
    apply (JsMapFacts.delete_gone (plugins w) (VStr s)). }
  destruct (register_success E s g removed Hs Hgone)
    as (r & w' & outs & Hrun & Hp' & _).
  rewrite Hrun. simpl. by rewrite Hp', Hp.
Qed.

Lemma register_again_goes_last_witness :
  "A" <> EmptyString /\
  JsMap.has (plugins Sample.two_plugins) (VStr "A") = true /\
  let removed := (unregisterPlugin Sample.env (VStr "A") Sample.two_plugins).2 in
  plugins (registerPlugin Sample.env (VStr "A") (VFun 3) removed).2 =
  [(VStr "B", VFun 1); (VStr "A", VFun 3)].
Proof.
  split; [discriminate |]. split; [reflexivity |].
  apply (register_again_goes_last Sample.env "A" 3 Sample.two_plugins);
    [discriminate | reflexivity].
Defined.

(** ** Listeners *)

Section Listeners.
Context (E : Env).
Implicit Types (w : World) (event callback payload : value).

Lemma subscribers_set_ne w event other s :
  other <> event ->
  subscribers (set_listeners (JsMap.set (listeners w) event s) w) other
    = subscribers w other.
Proof.
  intros Hne. unfold subscribers. simpl.
  by rewrite JsMapFacts.get_set_ne.
Qed.

Lemma subscribers_on_other event callback other w :
  other <> event ->
  subscribers (on event callback w).2 other = subscribers w other.
Proof. intros Hne. rewrite on_run. simpl. by apply subscribers_set_ne. Qed.

Lemma subscribers_off_other event callback other w :
  other <> event ->
  subscribers (off event callback w).2 other = subscribers w other.
Proof.
  intros Hne. rewrite off_run. simpl.
  destruct (JsMap.get (listeners w) event); [| done].
  by apply subscribers_set_ne.
Qed.

Lemma off_not_subscribed event callback w :
  callback ∉ subscribers w event -> (off event callback w).2 = w.
Proof.
  intros Hout. rewrite off_run. simpl. unfold subscribers in Hout.
  destruct (JsMap.get (listeners w) event) as [s |] eqn:Hs; [| done].
  simpl in Hout. rewrite JsSetFacts.delete_not_member by done.
  rewrite JsMapFacts.set_same by done. apply set_listeners_same.
Qed.


(** An emission to an event without listeners. *)
Lemma emit_unheard event payload w :
  subscribers w event = [] ->
  emit E event payload w =
  (Returned tt, add_event (Emit event payload (deref (heap w) payload)) w).
Proof.
  intros Hnone. rewrite emit_run. unfold subscribers in Hnone.
  destruct (JsMap.get (listeners w) event) as [s |]; [| done].
  simpl in Hnone. by subst s.
Qed.
End Listeners.



(** X6.  [off] takes that one callback out of the set of that one
    event: the other listeners of the event stay, in their order, and
    the listeners of every other event, the plugins, the middleware, the
    heap and the trace are as before.  When the callback is not
    subscribed to the event (the event may have no set at all), the
    world is exactly as before. *)
Theorem off_removes_only_that_listener event callback w :
  let w' := (off event callback w).2 in
  off event callback w = (Returned VUndefined, w') /\
  subscribers w' event = filter (fun c => c <> callback) (subscribers w event) /\
  (forall other, other <> event -> subscribers w' other = subscribers w other) /\
  plugins w' = plugins w /\ middlewares w' = middlewares w /\
  heap w' = heap w /\ trace w' = trace w /\
  (callback ∉ subscribers w event -> w' = w).
Proof.
  intros w'.
  assert (forall {A} (g : World -> A),
            (forall l w0, g (set_listeners l w0) = g w0) -> g w' = g w) as Hfield.
  { intros A g Hg. unfold w'. rewrite off_run. simpl.
    by destruct (JsMap.get (listeners w) event). }
  split_and!.
  - unfold w'. by rewrite off_run.
  - unfold w'. by rewrite subscribers_off.
  - intros other Hne. by apply subscribers_off_other.
  - by apply (Hfield _ plugins).
  - by apply (Hfield _ middlewares).
  - by apply (Hfield _ heap).
  - by apply (Hfield _ trace).
  - apply off_not_subscribed.
Qed.

(** X7.  [off] after [on] of a callback that was not subscribed gives
    back the listeners of every event; when the event had a set before,
    the world is exactly the one before the [on]. *)
Theorem off_undoes_on event callback w :
  callback ∉ subscribers w event ->
  let w' := (off event callback (on event callback w).2).2 in
  (forall e, subscribers w' e = subscribers w e) /\
  (is_Some (JsMap.get (listeners w) event) -> w' = w).
Proof.
  intros Hout w'.
  assert (subscribers w' event = subscribers w event) as Hsame.
  { unfold w'. rewrite subscribers_off, subscribers_on.
    unfold JsSet.add. rewrite decide_False by done.
    unfold JsSet.delete. rewrite filter_app, filter_cons_False by by intros H.
    rewrite filter_nil, app_nil_r.
    by apply JsSetFacts.delete_not_member. }
  split.
  - intros e. destruct (decide (e = event)) as [-> | Hne]; [done |].
    unfold w'. by rewrite subscribers_off_other, subscribers_on_other.
  - intros [s Hs]. unfold w'. rewrite off_run, on_run. simpl.
    rewrite JsMapFacts.get_set_eq, JsMapFacts.set_set.
    unfold subscribers in *. rewrite Hs in *. simpl in *.
    unfold JsSet.add. rewrite decide_False by done.
    unfold JsSet.delete. rewrite filter_app, filter_cons_False by by intros H.
    rewrite filter_nil, app_nil_r.
    fold (JsSet.delete s callback).
    rewrite JsSetFacts.delete_not_member by done.
    rewrite JsMapFacts.set_same by done.
    unfold set_listeners. simpl. by destruct w.
Qed.

Lemma off_undoes_on_witness :
  let w := Sample.two_listeners in
  let event := VStr "plugin:message" in
  (VFun 22 ∉ subscribers w event) /\
  (off event (VFun 22) (on event (VFun 22) w).2).2 = w.
Proof.
  intros w event.
  assert (VFun 22 ∉ subscribers w event) as Hout.
  { apply (bool_decide_unpack _). vm_compute. exact I. }
  split; [exact Hout |].
  apply (off_undoes_on event (VFun 22) w Hout). by eexists.
Defined.

(** X8.  An emission to an event that has no listener (no set, or an
    empty one) calls nothing, neither a listener nor the logger, and
    returns normally, whatever the logger would do. *)
Theorem emit_without_listeners E event payload w :
  subscribers w event = [] ->
  exists w',
    emit E event payload w = (Returned tt, w') /\
    trace w' = trace w ++ [Emit event payload (deref (heap w) payload)] /\
    heap w' = heap w /\ same_bridge w w'.
Proof.
  intros Hnone. eexists. rewrite (emit_unheard E event payload w Hnone).
  by split_and!.
Qed.

Lemma emit_without_listeners_witness :
  let w := (off (VStr "e") (VFun 20) (on (VStr "e") (VFun 20) Sample.two_plugins).2).2 in
  JsMap.get (listeners w) (VStr "e") = Some [] /\
  subscribers w (VStr "e") = [] /\
  exists w',
    emit Cases.env_failing_logger (VStr "e") VNull w = (Returned tt, w') /\
    trace w' = trace w ++ [Emit (VStr "e") VNull None] /\
    heap w' = heap w /\ same_bridge w w'.
Proof.
  intros w. split; [reflexivity |]. split; [reflexivity |].
  apply (emit_without_listeners Cases.env_failing_logger (VStr "e") VNull w).
  reflexivity.
Defined.

(** ** Emission, outcome by outcome *)

Section Outcomes.
Context (E : Env).
Implicit Types (w : World) (event callback payload : value).






(** The loop stops at the first failure that the logger fails to take. *)
Lemma loop_stops event payload before c after w :
  Forall (listener_returns E payload) before ->
  listener_fails E payload c ->
  sink_throws E ->
  exists e w' d,
    for_each (before ++ c :: after) (notify E event payload) w = (Thrown e, w') /\
    trace w' = trace w ++ d /\
    called d = before ++ [c] /\
    (exists args h h', logger_error E args h = (Thrown e, h')) /\
    same_bridge w w'.
Proof.
  intros Hbefore Hc Hsink. revert w.
  induction Hbefore as [|b before Hb _ IH]; intros w.
  - rewrite app_nil_l, for_each_cons, notify_run.
    destruct (call_listener_quiet E c payload w) as [Hcl Hsb].
    assert (exists error, (call_listener E c payload w).1 = Thrown error)
      as [error Herr].
    { destruct c; simpl; try by eexists.
      unfold lift_action. destruct (Hc f eq_refl (heap w)) as (e & h' & ->).
      by eexists. }
    destruct (call_listener E c payload w) as [r w1]; simpl in *. subst r.
    rewrite log_error_run. simpl.
    destruct (Hsink [listener_error_text E event; error] (heap w1))
      as (e & h' & Hlog).
    rewrite Hlog.
    eexists e, _, [CallListener c payload (Thrown error);
                   LogError [listener_error_text E event; error]].
    split; [done |]. split; [simpl; rewrite Hcl; by rewrite <- !app_assoc |].
    split; [done |]. split; [by eexists _, _, _ |]. exact Hsb.
  - rewrite <- app_comm_cons, for_each_cons, notify_run.
    destruct (call_listener_quiet E b payload w) as [Hcl Hsb].
    destruct Hb as (f & -> & Hf). simpl in *. unfold lift_action in *.
    destruct (Hf (heap w)) as (v & h' & Hv). rewrite Hv in *. simpl in *.
    destruct (IH (add_event (CallListener (VFun f) payload (Returned v))
                    (set_heap h' w)))
      as (e & w' & d & Hrun & Ht & Hcalled & Hlog & Hsb').
    exists e, w', (CallListener (VFun f) payload (Returned v) :: d).
    split; [done |]. split; [rewrite Ht; simpl; by rewrite <- app_assoc |].
    split; [simpl; by rewrite <- Hcalled |]. split; [done |].
    eapply same_bridge_trans; [| exact Hsb']. done.
Qed.
End Outcomes.



(** X10.  The report to the logger is not itself guarded.  When the
    listeners before [c] return, [c] fails and the logger's [error]
    throws, the emission ends there: [emit] throws what the logger
    threw, and the listeners behind [c] are not called. *)
Theorem emit_stops_when_the_logger_throws E event payload before c after w :
  JsMap.get (listeners w) event = Some (before ++ c :: after) ->
  Forall (listener_returns E payload) before ->
  listener_fails E payload c ->
  sink_throws E ->
  exists e w' d,
    emit E event payload w = (Thrown e, w') /\
    trace w' = trace w ++ Emit event payload (deref (heap w) payload) :: d /\
    called d = before ++ [c] /\
    (exists args h h', logger_error E args h = (Thrown e, h')) /\
    same_bridge w w'.
Proof.
  intros Hget Hbefore Hc Hsink. rewrite emit_run, Hget. simpl.
  destruct (loop_stops E event payload before c after
              (add_event (Emit event payload (deref (heap w) payload)) w)
              Hbefore Hc Hsink)
    as (e & w' & d & Hrun & Ht & Hcalled & Hlog & Hsb).
  exists e, w', d. split; [done |].
  split; [rewrite Ht; simpl; by rewrite <- app_assoc |].
  split; [done |]. split; [done |].
  eapply same_bridge_trans; [| exact Hsb]. by repeat split.
Qed.

Lemma emit_stops_when_the_logger_throws_witness :
  let w := Sample.two_listeners in
  let event := VStr "plugin:message" in
  JsMap.get (listeners w) event = Some ([] ++ VFun 20 :: [VFun 21]) /\
  listener_fails Cases.env_failing_logger VNull (VFun 20) /\
  sink_throws Cases.env_failing_logger /\
  exists e w' d,
    emit Cases.env_failing_logger event VNull w = (Thrown e, w') /\
    trace w' = trace w ++ Emit event VNull None :: d /\
    called d = [VFun 20] /\
    (exists args h h', logger_error Cases.env_failing_logger args h = (Thrown e, h')) /\
    same_bridge w w'.
Proof.
  intros w event.
  assert (listener_fails Cases.env_failing_logger VNull (VFun 20)) as Hc.
  { intros f [= <-] h. by eexists _, _. }
  assert (sink_throws Cases.env_failing_logger) as Hsink.
  { intros args h. by eexists _, _. }
  split; [reflexivity |]. split; [exact Hc |]. split; [exact Hsink |].
  apply (emit_stops_when_the_logger_throws Cases.env_failing_logger event VNull
           [] (VFun 20) [VFun 21] w eq_refl); [constructor | exact Hc | exact Hsink].
Defined.

(** X11.  Every world a program can reach, from a new bridge by calls
    of the methods, is well formed.  So a name the plugin map has is a
    non-empty string that maps to a function, and the middleware array
    holds functions only: the checks of [registerPlugin] and [use] are
    the only way in, and no method breaks what they establish. *)
Theorem methods_keep_the_bridge_well_formed E w :
  reachable E w ->
  well_formed w /\
  (forall name, JsMap.has (plugins w) name = true ->
     nonempty_string name /\ exists f, JsMap.get (plugins w) name = Some (VFun f)) /\
  (exists fs, middlewares w = VFun <$> fs).
Proof.
  intros Hreach. pose proof (reachable_well_formed E w Hreach) as Hwf.
  split; [done |]. destruct Hwf as (_ & Hp & Hm & _). split.
  - intros name [v Hget]%JsMapFacts.has_get.
    rewrite Forall_forall in Hp.
    destruct (Hp _ (get_elem _ _ _ Hget)) as [Hn [f Hf]]. simpl in *. subst v.
    split; [done | by exists f].
  - by apply invocable_all.
Qed.

Lemma methods_keep_the_bridge_well_formed_witness :
  reachable Sample.env Sample.two_stages /\
  well_formed Sample.two_stages /\
  (forall name, JsMap.has (plugins Sample.two_stages) name = true ->
     nonempty_string name /\
     exists f, JsMap.get (plugins Sample.two_stages) name = Some (VFun f)) /\
  (exists fs, middlewares Sample.two_stages = VFun <$> fs).
Proof.
  assert (reachable Sample.env Sample.two_stages) as Hreach.
  { unfold Sample.two_stages, Sample.two_plugins, Sample.run.
    apply reach_use, reach_use, reach_registerPlugin, reach_registerPlugin,
      reach_constructor. }
  split; [exact Hreach |].
  exact (methods_keep_the_bridge_well_formed Sample.env Sample.two_stages Hreach).
Defined.

(** X12.  A first middleware that settles without calling [next]
    answers in the handler's place.  What it throws is what [send]
    throws, with no event; what it returns is the response: it is the
    [response] of the one [plugin:message] payload, the event follows
    the middleware call directly, and with a logger that returns [send]
    returns it. *)
Theorem middleware_answers_in_place E name message context w ctx w0 m after r h :
  JsMap.has (plugins w) name = true ->
  default_param context w = (Returned ctx, w0) ->
  middlewares w = VFun m :: after ->
  middleware_sem E m message ctx (heap w0) = MwReturn r h ->
  match r with
  | Thrown e =>
      send E name message context w =
      (Thrown e, set_heap h (add_event (CallMiddleware m message ctx) w0))
  | Returned v =>
      exists r' w2 d,
        send E name message context w = (r', w2) /\
        trace w2 = trace w ++
          CallMiddleware m message ctx
          :: Emit (VStr "plugin:message") (VRef (length h))
               (Some {[ "name" := name; "message" := message; "response" := v ]})
          :: d /\
        Forall is_report d /\
        (sink_returns E -> r' = Returned v)
  end.
Proof.
  intros Hhas Hd Hmw Hsem.
  destruct (default_param_inv context w) as (c & w' & Hd' & _ & _ & Ht0 & _).
  rewrite Hd in Hd'. injection Hd' as <- <-.
  pose proof (compose_skips E m after
                (default VUndefined (JsMap.get (plugins w) name))
                message ctx r h w0 Hsem) as Hpipe.
  rewrite <- Hmw in Hpipe.
  pose proof (send_with_pipeline E name message context w ctx w0 _ _ Hhas Hd Hpipe)
    as Hsend.
  destruct r as [v | e]; [| done].
  destruct Hsend as (r' & w2 & d & Hrun & Ht & Hd' & _ & _ & Hr).
  exists r', w2, d. split; [done |]. split; [| done].
  rewrite Ht. simpl. by rewrite Ht0, <- app_assoc.
Qed.

Lemma middleware_answers_in_place_witness :
  let w := Sample.stopped in
  JsMap.has (plugins w) (VStr "A") = true /\
  middlewares w = VFun 11 :: [VFun 13] /\
  exists r' w2 d,
    send Sample.env (VStr "A") (VStr "ping") (VStr "ctx") w = (r', w2) /\
    trace w2 = trace w ++
      CallMiddleware 11 (VStr "ping") (VStr "ctx")
      :: Emit (VStr "plugin:message") (VRef 2)
           (Some {[ "name" := VStr "A"; "message" := VStr "ping";
                    "response" := VStr "short" ]})
      :: d /\
    Forall is_report d /\
    (sink_returns Sample.env -> r' = Returned (VStr "short")).
Proof.
  intros w. split; [reflexivity |]. split; [reflexivity |].
  exact (middleware_answers_in_place Sample.env (VStr "A") (VStr "ping") (VStr "ctx")
           w (VStr "ctx") w 11 [VFun 13] (Returned (VStr "short")) (heap w)
           eq_refl eq_refl eq_refl eq_refl).
Defined.

(** X13.  A middleware that calls [next] decides the response by what
    it does with the outcome: with one middleware that calls [next]
    once, the handler runs on the heap the middleware left, and what the
    middleware then settles to, not what the handler settled to, is the
    outcome of the pipeline: thrown, it is what [send] throws; returned,
    it is the [response] of the event and, with a logger that returns,
    of [send]. *)
Theorem middleware_decides_the_response
    E name message context w ctx w0 m f args h k r0 h1 r h2 :
  default_param context w = (Returned ctx, w0) ->
  middlewares w = [VFun m] ->
  JsMap.get (plugins w) name = Some (VFun f) ->
  middleware_sem E m message ctx (heap w0) = MwNext args h k ->
  handler_sem E f message ctx h = (r0, h1) ->
  k r0 h1 = MwReturn r h2 ->
  match r with
  | Thrown e =>
      exists w1,
        send E name message context w = (Thrown e, w1) /\
        trace w1 = trace w ++
          [CallMiddleware m message ctx; CallHandler f message ctx]
  | Returned v =>
      exists r' w2 d,
        send E name message context w = (r', w2) /\
        trace w2 = trace w ++
          CallMiddleware m message ctx :: CallHandler f message ctx
          :: Emit (VStr "plugin:message") (VRef (length h2))
               (Some {[ "name" := name; "message" := message; "response" := v ]})
          :: d /\
        Forall is_report d /\
        (sink_returns E -> r' = Returned v)
  end.
Proof.
  intros Hd Hmw Hget Hsem Hh Hk.
  assert (JsMap.has (plugins w) name = true) as Hhas.
  { apply JsMapFacts.has_get. by rewrite Hget. }
  destruct (default_param_inv context w) as (c & w' & Hd' & _ & _ & Ht0 & _).
  rewrite Hd in Hd'. injection Hd' as <- <-.
  pose proof (compose_wraps E m f message ctx args h k r0 h1 r h2 w0 Hsem Hh Hk)
    as Hpipe.
  assert (compose E (middlewares w)
            (default VUndefined (JsMap.get (plugins w) name)) message ctx [] w0
          = compose E [VFun m] (VFun f) message ctx [] w0) as Heq.
  { by rewrite Hmw, Hget. }
  rewrite <- Heq in Hpipe.
  pose proof (send_with_pipeline E name message context w ctx w0 _ _ Hhas Hd Hpipe)
    as Hsend.
  destruct r as [v | e].
  - destruct Hsend as (r' & w2 & d & Hrun & Ht & Hd' & _ & _ & Hr).
    exists r', w2, d. split; [done |]. split; [| done].
    rewrite Ht. simpl. by rewrite Ht0, <- !app_assoc.
  - eexists. split; [exact Hsend |]. simpl. by rewrite Ht0, <- !app_assoc.
Qed.

Lemma middleware_decides_the_response_witness :
  let w := Sample.transforming in
  exists w1,
    send Sample.env (VStr "B") (VStr "ping") (VStr "ctx") w
      = (Thrown (VError "boom"), w1) /\
    trace w1 = trace w ++
      [CallMiddleware 10 (VStr "ping") (VStr "ctx");
       CallHandler 1 (VStr "ping") (VStr "ctx")].
Proof.
  intros w.
  exact (middleware_decides_the_response Sample.env (VStr "B") (VStr "ping")
           (VStr "ctx") w (VStr "ctx") w 10 1 [VStr "transformed"; VNum 1]
           (heap w) (fun r h' => MwReturn r h')
           (Thrown (VError "boom")) (heap w) (Thrown (VError "boom")) (heap w)
           eq_refl eq_refl eq_refl eq_refl eq_refl eq_refl).
Defined.

(** X14.  What was registered is what [send] reaches.  After
    [registerPlugin(name, handler)] on a bridge without middleware,
    [send(name, message, context)] calls that handler, once and with the
    message and the context (the new empty object when there is none),
    and no other handler; with a logger that returns, [send] settles as
    the handler did. *)
Theorem send_reaches_the_registered_handler E s f w r w1 message context ctx w0 :
  s <> EmptyString ->
  JsMap.has (plugins w) (VStr s) = false ->
  middlewares w = [] ->
  registerPlugin E (VStr s) (VFun f) w = (r, w1) ->
  default_param context w1 = (Returned ctx, w0) ->
  (sink_returns E ->
   (send E (VStr s) message context w1).1 =
   (handler_sem E f message ctx (heap w0)).1) /\
  exists d,
    trace (send E (VStr s) message context w1).2 =
      trace w1 ++ CallHandler f message ctx :: d /\
    stage_calls d = [].
Proof.
  intros Hs Hhas Hmw Hreg Hd.
  destruct (register_success E s f w Hs Hhas)
    as (r' & w' & outs & Hrun & Hp & Hm & _).
  rewrite Hreg in Hrun. injection Hrun as <- <-.
  assert (JsMap.get (plugins w1) (VStr s) = Some (VFun f)) as Hget.
  { rewrite Hp, <- (set_absent (plugins w) (VStr s) (VFun f)).
    - apply JsMapFacts.get_set_eq.
    - by apply JsMapFacts.has_false. }
  rewrite Hmw in Hm.
  destruct (send_handler_alone E (VStr s) message context w1 ctx w0 f Hm Hget Hd)
    as (_ & Hr & d & Ht & Hnone).
  split; [done |]. exists d. split; [done |]. by apply stage_calls_none.
Qed.

Lemma send_reaches_the_registered_handler_witness :
  let w1 := (registerPlugin Sample.env (VStr "A") (VFun 0) (constructor [])).2 in
  (sink_returns Sample.env ->
   (send Sample.env (VStr "A") (VStr "ping") VUndefined w1).1 =
   (handler_sem Sample.env 0 (VStr "ping") (VRef (length (heap w1)))
      (heap w1 ++ [∅])).1) /\
  exists d,
    trace (send Sample.env (VStr "A") (VStr "ping") VUndefined w1).2 =
      trace w1 ++ CallHandler 0 (VStr "ping") (VRef (length (heap w1))) :: d /\
    stage_calls d = [].
Proof.
  intros w1.
  apply (send_reaches_the_registered_handler Sample.env "A" 0 (constructor [])
           (registerPlugin Sample.env (VStr "A") (VFun 0) (constructor [])).1 w1
           (VStr "ping") VUndefined (VRef (length (heap w1)))
           (set_heap (heap w1 ++ [∅]) w1)); try reflexivity; done.
Defined.

(** X15.  A target of [broadcast] whose [send] failed with anything but
    [undefined] or [null] is reported to the logger, once and with the
    failure itself, and settles to a new object whose [error] is the
    [message] of the failure: the text of an [Error], the [message]
    property of another object, and [undefined] for a string, a number,
    a boolean or a function.  The bridge stays as [send] left it. *)
Theorem broadcast_target_failure_becomes_a_slot E message ctx name w error w1 :
  sink_returns E ->
  send E name message ctx w = (Thrown error, w1) ->
  error <> VUndefined -> error <> VNull ->
  exists w2,
    trace w2 = trace w1 ++ [LogError [broadcast_error_text E name; error]] /\
    same_bridge w1 w2 /\
    target E message ctx name w =
    (Returned (VRef (length (heap w2))),
     set_heap
       (heap w2 ++
        [{[ "error" :=
              match error with
              | VError m => VStr m
              | VRef l =>
                  match heap w2 !! l with
                  | Some o => default VUndefined (o !! "message")
                  | None => VUndefined
                  end
              | _ => VUndefined
              end ]}]) w2).
Proof.
  intros Hsink Hsend Hu Hn. unfold target, try_catch. rewrite Hsend.
  destruct (Hsink [broadcast_error_text E name; error] (heap w1))
    as (v & h & Hlog).
  set (w2 := set_heap h
               (add_event (LogError [broadcast_error_text E name; error]) w1)).
  assert (log_error E [broadcast_error_text E name; error] w1 = (Returned v, w2))
    as Hrun.
  { rewrite log_error_run. simpl. by rewrite Hlog. }
  exists w2. split; [done |]. split; [by repeat split |].
  unfold bind. rewrite Hrun. by destruct error.
Qed.

Lemma broadcast_target_failure_becomes_a_slot_witness :
  let w := Cases.throwing_string in
  exists w1 w2,
    send Cases.env (VStr "S") VNull (VStr "ctx") w = (Thrown (VStr "boom"), w1) /\
    trace w2 = trace w1 ++
      [LogError [broadcast_error_text Cases.env (VStr "S"); VStr "boom"]] /\
    same_bridge w1 w2 /\
    target Cases.env VNull (VStr "ctx") (VStr "S") w =
    (Returned (VRef (length (heap w2))),
     set_heap (heap w2 ++ [{[ "error" := VUndefined ]}]) w2).
Proof.
  intros w.
  assert (sink_returns Cases.env) as Hsink.
  { intros args h. by exists VUndefined, h. }
  eexists.
  destruct (broadcast_target_failure_becomes_a_slot Cases.env VNull (VStr "ctx")
              (VStr "S") w (VStr "boom") _ Hsink eq_refl)
    as (w2 & Ht & Hb & Hrun); [done | done |].
  exists w2. split; [reflexivity |]. by split_and!.
Defined.

(** X16.  With a logger that returns, [broadcast] resolves to an array
    with one slot per plugin that was registered when it was called, or
    rejects with the [TypeError] of reading [message] of [undefined] or
    [null]; it rejects for no other reason. *)
Theorem broadcast_has_one_slot_per_plugin E message context w :
  sink_returns E ->
  match (broadcast E message context w).1 with
  | Returned slots => length slots = length (plugins w)
  | Thrown e => nullish_type_error e
  end.
Proof. intros Hsink. by apply broadcast_outcome. Qed.

Lemma broadcast_has_one_slot_per_plugin_witness :
  sink_returns Sample.env /\
  match (broadcast Sample.env (VStr "ping") VUndefined Sample.two_plugins).1 with
  | Returned slots => length slots = length (plugins Sample.two_plugins)
  | Thrown e => nullish_type_error e
  end.
Proof.
  assert (sink_returns Sample.env) as Hsink.
  { intros args h. by exists VUndefined, h. }
  split; [exact Hsink |].
  exact (broadcast_has_one_slot_per_plugin Sample.env (VStr "ping") VUndefined
           Sample.two_plugins Hsink).
Defined.



(** X18.  A handler that throws makes [send] throw the same value, and
    nothing else happens: on a bridge without middleware the trace
    grows by the one handler call, with no event, no listener call and
    no report to the logger, and the heap is the one the handler
    left. *)
Theorem send_rethrows_the_handler_failure
    E name message context w ctx w0 f e h :
  middlewares w = [] ->
  JsMap.get (plugins w) name = Some (VFun f) ->
  default_param context w = (Returned ctx, w0) ->
  handler_sem E f message ctx (heap w0) = (Thrown e, h) ->
  send E name message context w =
    (Thrown e, set_heap h (add_event (CallHandler f message ctx) w0)) /\
  trace (send E name message context w).2 =
    trace w ++ [CallHandler f message ctx].
Proof.
  intros Hmw Hget Hd Hh.
  assert (JsMap.has (plugins w) name = true) as Hhas.
  { apply JsMapFacts.has_get. by rewrite Hget. }
  destruct (default_param_inv context w) as (c & w' & Hd' & _ & _ & Ht0 & _).
  rewrite Hd in Hd'. injection Hd' as <- <-.
  assert (compose E (middlewares w)
            (default VUndefined (JsMap.get (plugins w) name)) message ctx [] w0
          = (Thrown e, set_heap h (add_event (CallHandler f message ctx) w0)))
    as Hpipe.
  { rewrite Hmw, Hget, compose_nil. simpl.
    unfold call_handler, bind, tell, modify, lift_action. simpl.
    by rewrite Hh. }
  pose proof (send_with_pipeline E name message context w ctx w0 _ _ Hhas Hd Hpipe)
    as Hsend.
  simpl in Hsend. rewrite Hsend. split; [done |]. simpl. by rewrite Ht0.
Qed.

Lemma send_rethrows_the_handler_failure_witness :
  let w := Cases.throwing_string in
  send Cases.env (VStr "S") (VStr "ping") (VStr "ctx") w =
    (Thrown (VStr "boom"),
     set_heap (heap w)
       (add_event (CallHandler 5 (VStr "ping") (VStr "ctx")) w)) /\
  trace (send Cases.env (VStr "S") (VStr "ping") (VStr "ctx") w).2 =
    trace w ++ [CallHandler 5 (VStr "ping") (VStr "ctx")].
Proof.
  intros w.
  exact (send_rethrows_the_handler_failure Cases.env (VStr "S") (VStr "ping")
           (VStr "ctx") w (VStr "ctx") w 5 (VStr "boom") (heap w)
           eq_refl eq_refl eq_refl eq_refl).
Defined.

(** X19.  The loop of [emit] over the list of the set's values is the
    loop over the live set in an emission in which no listener calls
    [on] or [off] on the heap on which it is called: given as many steps
    as the set has entries and one more, the loop over the live set ends
    as [emit] does, and leaves the same entries in the trace, the same
    heap and the same sets. *)
Theorem live_emit_matches_emit E calls_of event payload w (mw : World) :
  listeners mw = Live.listeners_of w ->
  heap mw = Live.heap w ->
  Live.no_call E calls_of event payload (Live.subscribers w event) (Live.heap w) ->
  exists w' d,
    Live.emit E calls_of
      (S (length (default [] (JsMap.get (Live.sets w) event)))) event payload w
      = Some ((emit E event payload mw).1, w') /\
    Live.heap w' = heap (emit E event payload mw).2 /\
    Live.trace w' = Live.trace w ++ d /\
    trace (emit E event payload mw).2 = trace mw ++ d /\
    Live.made w' = Live.made w /\
    Live.sets w' = Live.sets w.
Proof. apply live_emit_agrees. Qed.

Lemma live_emit_matches_emit_witness :
  let w := LiveCases.two_listeners in
  let mw := LiveCases.listed in
  let event := LiveCases.event in
  listeners mw = [(event, [VFun 40; VFun 41])] /\
  Live.sets w = [(event, [Some (VFun 40); Some (VFun 41)])] /\
  exists w' d,
    Live.emit Sample.env LiveCases.no_calls 3 event VNull w
      = Some ((emit Sample.env event VNull mw).1, w') /\
    Live.heap w' = heap (emit Sample.env event VNull mw).2 /\
    Live.trace w' = Live.trace w ++ d /\
    trace (emit Sample.env event VNull mw).2 = trace mw ++ d /\
    Live.made w' = Live.made w /\
    Live.sets w' = Live.sets w.
Proof.
  intros w mw event. split; [reflexivity |]. split; [reflexivity |].
  apply (live_emit_matches_emit Sample.env LiveCases.no_calls event VNull w mw);
    [reflexivity | reflexivity |].
  eapply Live.no_call_returned; [reflexivity | reflexivity |].
  eapply Live.no_call_returned; [reflexivity | reflexivity |].
  apply Live.no_call_done.
Defined.
